(** * analyze_sales.py: a shallow embedding and its verified properties

    The script reads a sales spreadsheet into a pandas DataFrame, detects the
    date / category / amount / quantity columns, cleans and filters the rows,
    aggregates by (month, category), pivots, computes the month-over-month
    change, writes three CSV files and a chart, and finally a short report.

    Modelling choices, used throughout:
    - a DataFrame is its list of column labels together with its rows, each
      row a finite map from column label to cell;
    - a cell is missing (NaN / NaT / None), a text, a number or a timestamp;
    - numbers are exact rationals in canonical form ([Qc]), so that equality
      of numbers is plain equality; the non-finite floats that the script
      handles explicitly (the result of a division by zero) are a separate
      type [float];
    - library routines whose behaviour is not part of the script
      ([str.lower], [pd.to_datetime], [pd.to_numeric]) are the fields of the
      class [Library]; every result holds for all of its instances;
    - [print] and the files written are recorded as a list of events, and an
      uncaught exception ends the run. *)

From Stdlib Require Import Ascii String QArith Qcanon.
From Stdlib Require OrderedTypeEx.
From stdpp Require Import gmap strings list numbers sorting.

Open Scope string_scope.
Open Scope Qc_scope.
Open Scope Z_scope.
Open Scope list_scope.
Open Scope stdpp_scope.

(** ** Data model *)

(** A pandas [Timestamp], by its calendar fields; [nanos] is the time of day.
    Timestamps are ordered chronologically, that is lexicographically on
    (year, month, day, nanos). *)
Record Timestamp := mkTimestamp {
  year : Z;
  month : Z;
  day : Z;
  nanos : Z
}.

#[global] Instance Timestamp_eq_dec : EqDecision Timestamp.
Proof. solve_decision. Defined.

Definition ts_compare (a b : Timestamp) : comparison :=
  match year a ?= year b with
  | Eq => match month a ?= month b with
          | Eq => match day a ?= day b with
                  | Eq => nanos a ?= nanos b
                  | o => o
                  end
          | o => o
          end
  | o => o
  end.

(** [a <= b] read off a three-way comparison. *)
Definition leb_of {A} (cmp : A → A → comparison) (a b : A) : bool :=
  match cmp a b with Gt => false | _ => true end.

(** [a <= b], [a >= b] and [a < b] on timestamps. *)
Definition ts_le (a b : Timestamp) : bool := leb_of ts_compare a b.
Definition ts_ge (a b : Timestamp) : bool := ts_le b a.
Definition ts_lt (a b : Timestamp) : bool :=
  match ts_compare a b with Lt => true | _ => false end.

(** What the proofs need of a three-way comparison: it decides equality,
    swapping the arguments flips it, and "less than" is transitive. *)
Class CompareLaws {A} (cmp : A → A → comparison) := {
  cmp_eq : ∀ a b, cmp a b = Eq ↔ a = b;
  cmp_opp : ∀ a b, cmp b a = CompOpp (cmp a b);
  cmp_lt_trans : ∀ a b c, cmp a b = Lt → cmp b c = Lt → cmp a c = Lt
}.
Arguments cmp_eq {A} cmp {_} a b.
Arguments cmp_opp {A} cmp {_} a b.
Arguments cmp_lt_trans {A} cmp {_} a b c.

(** The timestamps pandas can hold have a four-digit year
    (1677 to 2262) and a month between 1 and 12. *)
Definition valid_ts (t : Timestamp) : Prop :=
  (1677 ≤ year t ∧ year t ≤ 2262) ∧ (1 ≤ month t ∧ month t ≤ 12).

#[global] Instance valid_ts_dec t : Decision (valid_ts t).
Proof. unfold valid_ts. apply _. Defined.

(** A cell of the table. [NaN] stands for every missing value. *)
Inductive cell :=
  | NaN
  | Str (s : string)
  | Num (q : Qc)
  | Time (t : Timestamp).

#[global] Instance cell_eq_dec : EqDecision cell.
Proof. solve_decision. Defined.

#[global] Instance cell_inhabited : Inhabited cell := populate NaN.

Definition isna (c : cell) : bool :=
  match c with NaN => true | _ => false end.

Record DataFrame := mkDataFrame {
  columns : list string;
  rows : list (gmap string cell)
}.

(** [row[col]]; a label outside the row reads as missing. *)
Definition at_col (col : string) (r : gmap string cell) : cell :=
  default NaN (r !! col).

(** [len(df)] *)
Definition len (df : DataFrame) : nat := length (rows df).

(** [df[col] = f(row)] for every row; a new label is appended to the
    columns, an existing one keeps its place. *)
Definition assign (col : string) (f : gmap string cell → cell)
    (df : DataFrame) : DataFrame :=
  {| columns := if decide (col ∈ columns df) then columns df
                else columns df ++ [col];
     rows := (λ r, <[col := f r]> r) <$> rows df |}.

(** [df[col] = values], one value per row. *)
Definition assign_values (col : string) (values : list cell)
    (df : DataFrame) : DataFrame :=
  {| columns := if decide (col ∈ columns df) then columns df
                else columns df ++ [col];
     rows := zip_with (λ r v, <[col := v]> r) (rows df) values |}.

(** The library routines the script calls on strings and columns, with
    the facts about them that the script relies on. *)
Class Library := {
  (** [str.lower] *)
  lower : string → string;
  (** [pd.to_datetime(_, errors="coerce")] on a column: [None] is NaT. The
      format may be inferred from the column as a whole, so the routine is
      taken on the column; it returns one value per row, and a value it
      returns is a timestamp pandas can hold. *)
  to_datetime : list cell → list (option Timestamp);
  to_datetime_length : ∀ l, length (to_datetime l) = length l;
  to_datetime_valid : ∀ l t, Some t ∈ to_datetime l → valid_ts t;
  (** [pd.to_numeric(_, errors="coerce")] on one value: [None] is NaN. A
      number is left as it is. *)
  to_numeric : cell → option Qc;
  to_numeric_num : ∀ q, to_numeric (Num q) = Some q
}.

(** ** The candidate header names *)

Definition COMMON_DATE_COLS : list string :=
  ["日期"; "出库日期"; "单据日期"; "销售日期"; "date"; "Date"; "出库时间"].
Definition COMMON_CATEGORY_COLS : list string :=
  ["产品类别"; "类别"; "类别名称"; "商品类别"; "产品分类"; "商品大类";
   "category"; "Category"; "类别ID"].
Definition COMMON_AMOUNT_COLS : list string :=
  ["金额"; "销售额"; "实收金额"; "金额(元)"; "总额"; "金额合计";
   "amount"; "Amount"; "销售金额"].
Definition COMMON_QTY_COLS : list string :=
  ["数量"; "数量(件)"; "qty"; "Qty"; "数量(kg)"].

(** ** detect_column *)

Section detect.
Context `{Library}.

(** first loop: [for c in candidates: if c in df.columns: return c] *)
Fixpoint first_exact (cols candidates : list string) : option string :=
  match candidates with
  | [] => None
  | c :: cs => if decide (c ∈ cols) then Some c else first_exact cols cs
  end.

(** [{col.lower(): col for col in df.columns}]: a later column replaces an
    earlier one under the same key. *)
Definition lowermap (cols : list string) : gmap string string :=
  foldl (λ m col, <[lower col := col]> m) ∅ cols.

(** second loop:
    [for c in candidates: if c.lower() in lowermap: return lowermap[c.lower()]] *)
Fixpoint first_lower (m : gmap string string) (candidates : list string)
    : option string :=
  match candidates with
  | [] => None
  | c :: cs =>
      match m !! lower c with
      | Some col => Some col
      | None => first_lower m cs
      end
  end.

Definition detect_column (df : DataFrame) (candidates : list string)
    : option string :=
  match first_exact (columns df) candidates with
  | Some c => Some c
  | None => first_lower (lowermap (columns df)) candidates
  end.

(** The headers whose lower-case form is [k], in column order. *)
Definition spelled (k : string) (cols : list string) : list string :=
  filter (λ h, lower h = k) cols.
End detect.

(** ** Numbers with the non-finite floats *)

(** The value of a float cell once divisions may have produced a non-finite
    result: a finite number, one of the two infinities, or NaN. *)
Inductive float64 :=
  | Fin (q : Qc)
  | PInf
  | NInf
  | FNaN.

#[global] Instance float64_eq_dec : EqDecision float64.
Proof. solve_decision. Defined.

Definition Qc_sign (q : Qc) : comparison := (q ?= 0)%Qc.

(** [a / b] on floats: a nonzero number over zero is an infinity, zero over
    zero and anything involving NaN is NaN. *)
Definition fdiv (a b : float64) : float64 :=
  match a, b with
  | FNaN, _ | _, FNaN => FNaN
  | Fin x, Fin y =>
      if decide (y = 0%Qc) then
        match Qc_sign x with Gt => PInf | Lt => NInf | Eq => FNaN end
      else Fin (x / y)%Qc
  | Fin _, (PInf | NInf) => Fin 0%Qc
  | PInf, Fin y => match Qc_sign y with Lt => NInf | _ => PInf end
  | NInf, Fin y => match Qc_sign y with Lt => PInf | _ => NInf end
  | (PInf | NInf), (PInf | NInf) => FNaN
  end.

(** [a - b] on floats. *)
Definition fsub (a b : float64) : float64 :=
  match a, b with
  | FNaN, _ | _, FNaN => FNaN
  | Fin x, Fin y => Fin (x - y)%Qc
  | Fin _, PInf => NInf
  | Fin _, NInf => PInf
  | PInf, PInf | NInf, NInf => FNaN
  | PInf, _ => PInf
  | NInf, _ => NInf
  end.

(** [.replace([np.inf, -np.inf], np.nan)] on one value *)
Definition replace_inf (a : float64) : float64 :=
  match a with PInf | NInf => FNaN | _ => a end.

(** [.replace(0, np.nan)] on one value *)
Definition replace_zero (q : Qc) : float64 :=
  if decide (q = 0%Qc) then FNaN else Fin q.

(** ** Order on labels and sorting *)

Definition kind (c : cell) : Z :=
  match c with Num _ => 0 | Str _ => 1 | Time _ => 2 | NaN => 3 end.

(** Labels of one type are compared by value (texts by code point, which is
    the order of their UTF-8 bytes); labels of different types by kind. *)
Definition cell_compare (a b : cell) : comparison :=
  match a, b with
  | Num x, Num y => (x ?= y)%Qc
  | Str x, Str y => String.compare x y
  | Time x, Time y => ts_compare x y
  | _, _ => kind a ?= kind b
  end.

Definition cell_leb (a b : cell) : bool := leb_of cell_compare a b.

Definition Qc_leb (a b : Qc) : bool := leb_of Qccompare a b.

Section sorting.
Context {A : Type} (leb : A → A → bool).

Fixpoint insert_sorted (x : A) (l : list A) : list A :=
  match l with
  | [] => [x]
  | y :: l' => if leb x y then x :: y :: l' else y :: insert_sorted x l'
  end.

(** A stable ascending sort. *)
Fixpoint stable_sort (l : list A) : list A :=
  match l with
  | [] => []
  | x :: l' => insert_sorted x (stable_sort l')
  end.

(** Descending order as pandas' [nargsort] obtains it with
    [ascending=False]: reverse, sort ascending, reverse; entries that
    compare equal keep their order. *)
Definition sort_descending (l : list A) : list A :=
  reverse (stable_sort (reverse l)).

(** The order in which [stable_sort] leaves its input: ascending, and two
    entries that compare equal stay in the order [T] they came in. *)
Definition ascending_then (T : relation A) : relation A :=
  λ x y, leb x y = true ∧ (leb y x = true → T x y).

End sorting.

(** [drop_duplicates] on a list: the first occurrence of each element stays. *)
Fixpoint keep_first `{EqDecision A} (seen : list A) (l : list A) : list A :=
  match l with
  | [] => []
  | x :: l' =>
      if decide (x ∈ seen) then keep_first seen l'
      else x :: keep_first (x :: seen) l'
  end.

(** The distinct labels of a list in ascending order, as the group keys of a
    [groupby] and the axes of a [pivot] are. *)
Definition sorted_unique (l : list cell) : list cell :=
  stable_sort cell_leb (keep_first [] l).

(** [.head(n)]: the first [n] entries, all but the last [-n] when [n < 0]. *)
Definition head {A} (n : Z) (l : list A) : list A :=
  if decide (0 ≤ n) then take (Z.to_nat n) l
  else take (length l - Z.to_nat (- n)) l.

(** [.tail(n)] for [n >= 0]: the last [n] entries. *)
Definition tail {A} (n : nat) (l : list A) : list A :=
  drop (length l - n) l.

(** ** Month labels *)

Definition digit (n : Z) : ascii :=
  ascii_of_nat (48 + Z.to_nat (n `mod` 10)).

(** [str] of a monthly [Period]: the year on four digits, a dash, the month
    on two digits, as in ["2025-10"]. *)
Definition month_label (t : Timestamp) : string :=
  String (digit (year t / 1000)) (String (digit (year t / 100))
  (String (digit (year t / 10)) (String (digit (year t))
  (String "-"%char (String (digit (month t / 10)) (String (digit (month t))
  EmptyString)))))).

(** Chronological order of the calendar months of two timestamps. *)
Definition month_before (a b : Timestamp) : Prop :=
  year a < year b ∨ (year a = year b ∧ month a < month b).

(** ** Cleaning steps on the table *)

Section cleaning.
Context `{Library}.

(** [df[col] = pd.to_datetime(df[col], errors="coerce")] *)
Definition coerce_date (df : DataFrame) (col : string) : DataFrame :=
  assign_values col
    ((λ o, match o with Some t => Time t | None => NaN end)
       <$> to_datetime (at_col col <$> rows df)) df.

(** [df.dropna(subset=[col])] *)
Definition dropna (col : string) (df : DataFrame) : DataFrame :=
  {| columns := columns df;
     rows := filter (λ r, at_col col r ≠ NaN) (rows df) |}.

(** One entry of [(df[date_col] >= start) & (df[date_col] <= end)]; a
    comparison with a value that is not a timestamp is false. *)
Definition date_mask (start end_ : Timestamp) (c : cell) : bool :=
  match c with
  | Time t => ts_ge t start && ts_le t end_
  | _ => false
  end.

(** [df.loc[mask].copy()] *)
Definition loc_mask (mask : gmap string cell → bool) (df : DataFrame)
    : DataFrame :=
  {| columns := columns df;
     rows := filter (λ r, mask r = true) (rows df) |}.

(** [df.drop_duplicates()] *)
Definition drop_duplicates (df : DataFrame) : DataFrame :=
  {| columns := columns df; rows := keep_first [] (rows df) |}.

(** [df[col] = df[col].fillna(v)] *)
Definition fillna (col : string) (v : cell) (df : DataFrame) : DataFrame :=
  assign col (λ r, match at_col col r with NaN => v | c => c end) df.

(** [df[col] = pd.to_numeric(df[col], errors="coerce")] *)
Definition coerce_numeric (col : string) (df : DataFrame) : DataFrame :=
  assign col
    (λ r, match to_numeric (at_col col r) with
          | Some q => Num q
          | None => NaN
          end) df.

(** [df[col] = pd.to_numeric(df[col], errors="coerce").fillna(0)] *)
Definition coerce_numeric_fill0 (col : string) (df : DataFrame)
    : DataFrame :=
  assign col
    (λ r, match to_numeric (at_col col r) with
          | Some q => Num q
          | None => Num 0%Qc
          end) df.

(** [.dt.to_period('M').astype(str)] on one value *)
Definition month_cell (c : cell) : cell :=
  match c with
  | Time t => Str (month_label t)
  | _ => Str "NaT"
  end.

(** A row with its month label, as line 123 adds it. *)
Definition with_month (date_col : string) (r : gmap string cell)
    : gmap string cell :=
  <["month" := month_cell (at_col date_col r)]> r.

(** [df["month"] = df[date_col].dt.to_period('M').astype(str)] *)
Definition add_month (date_col : string) (df : DataFrame) : DataFrame :=
  assign "month" (λ r, month_cell (at_col date_col r)) df.

(** [qty_col and qty_col in df.columns] *)
Definition usable (col : option string) (df : DataFrame) : bool :=
  match col with
  | Some c => bool_decide (c ≠ EmptyString ∧ c ∈ columns df)
  | None => false
  end.
End cleaning.

(** What lines 82 to 120 leave in the table: every row has a timestamp in
    the date column, a category, and a number in the amount column. *)
Definition cleaned (date_col cat_col amt_col : string) (df : DataFrame)
    : Prop :=
  ∀ r, r ∈ rows df →
    (∃ t, at_col date_col r = Time t ∧ valid_ts t)
    ∧ at_col cat_col r ≠ NaN
    ∧ ∃ q, at_col amt_col r = Num q.

(** ** Aggregation *)

(** One row of [agg], the aggregate by (month, category). *)
Record agg_row := mkAgg {
  agg_month : cell;
  agg_cat : cell;
  sales_amount : Qc;
  qty : Qc;
  orders : nat
}.

#[global] Instance agg_row_eq_dec : EqDecision agg_row.
Proof. solve_decision. Defined.

(** The number held by a cell of a numeric column; a missing value adds
    nothing to a sum. *)
Definition num (c : cell) : Qc :=
  match c with Num q => q | _ => 0%Qc end.

Definition Qc_sum (l : list Qc) : Qc := foldr Qcplus 0%Qc l.

(** ['sum'] of a column over the rows of a group *)
Definition col_sum (col : string) (g : list (gmap string cell)) : Qc :=
  Qc_sum ((λ r, num (at_col col r)) <$> g).

(** ['count'] of a column over the rows of a group: the values present *)
Definition col_count (col : string) (g : list (gmap string cell)) : nat :=
  length (filter (λ r, at_col col r ≠ NaN) g).

Definition Qc_of_nat (n : nat) : Qc := Q2Qc (inject_Z (Z.of_nat n)).

(** The key of a row under [groupby(["month", cat_col])]. *)
Definition group_key (cat_col : string) (r : gmap string cell)
    : cell * cell :=
  (at_col "month" r, at_col cat_col r).

(** Keys are ordered by month, then by category. *)
Definition pair_compare (a b : cell * cell) : comparison :=
  match cell_compare a.1 b.1 with
  | Eq => cell_compare a.2 b.2
  | o => o
  end.

Definition pair_leb (a b : cell * cell) : bool := leb_of pair_compare a b.

(** The rows that [groupby] places in a group: a row with a missing key is
    in no group. *)
Definition keyed_rows (cat_col : string) (df : DataFrame)
    : list (gmap string cell) :=
  filter (λ r, at_col "month" r ≠ NaN ∧ at_col cat_col r ≠ NaN) (rows df).

Definition group_keys (cat_col : string) (df : DataFrame)
    : list (cell * cell) :=
  stable_sort pair_leb (keep_first [] (group_key cat_col <$> keyed_rows cat_col df)).

Definition group_rows (cat_col : string) (df : DataFrame) (k : cell * cell)
    : list (gmap string cell) :=
  filter (λ r, group_key cat_col r = k) (keyed_rows cat_col df).

(** [df.groupby(["month", cat_col]).agg(sales_amount=(amt_col, 'sum'),
      qty=(qty_col, 'sum') if ... else (amt_col, 'count'),
      orders=(amt_col, 'count')).reset_index()];
    [qty_col] is [Some] exactly when the quantity column is usable. *)
Definition aggregate (cat_col amt_col : string) (qty_col : option string)
    (df : DataFrame) : list agg_row :=
  (λ k,
    let g := group_rows cat_col df k in
    {| agg_month := k.1;
       agg_cat := k.2;
       sales_amount := col_sum amt_col g;
       qty := match qty_col with
              | Some q => col_sum q g
              | None => Qc_of_nat (col_count amt_col g)
              end;
       orders := col_count amt_col g |}) <$> group_keys cat_col df.

(** ** Pivot and change matrices *)

(** A table with a row axis and a column axis, as [pivot] and [pct] are:
    [data] holds one list per entry of [index], each with one value per
    entry of [labels]. *)
Record Frame (V : Type) := mkFrame {
  index : list cell;
  labels : list cell;
  data : list (list V)
}.
Arguments mkFrame {V} _ _ _.
Arguments index {V} _.
Arguments labels {V} _.
Arguments data {V} _.

(** A pandas [Series]: values with their labels. *)
Definition Series (V : Type) : Type := list (cell * V).

(** The entry of [agg] for a month and a category, if there is one. *)
Definition agg_lookup (agg : list agg_row) (m c : cell) : option Qc :=
  sales_amount <$>
    List.find (λ r, bool_decide (agg_month r = m ∧ agg_cat r = c)) agg.

(** [agg.pivot(index='month', columns=cat_col, values='sales_amount')]:
    both axes hold the distinct labels in ascending order; a combination
    without a row of [agg] is missing. *)
Definition pivot_table (agg : list agg_row) : Frame (option Qc) :=
  let ms := sorted_unique (agg_month <$> agg) in
  let cs := sorted_unique (agg_cat <$> agg) in
  {| index := ms;
     labels := cs;
     data := (λ m, (λ c, agg_lookup agg m c) <$> cs) <$> ms |}.

(** [.fillna(0)] on a frame *)
Definition fillna0 (f : Frame (option Qc)) : Frame Qc :=
  {| index := index f;
     labels := labels f;
     data := (λ row : list (option Qc), default 0%Qc <$> row) <$> data f |}.

(** [.sort_index()]: the rows in ascending order of their label. *)
Definition sort_index {V} (f : Frame V) : Frame V :=
  let sorted :=
    stable_sort (λ a b, cell_leb a.1 b.1) (zip (index f) (data f)) in
  {| index := sorted.*1; labels := labels f; data := sorted.*2 |}.

(** [pivot.shift(1)]: every row moves down by one, the first row is missing
    and the last one falls off. *)
Definition shift1 (f : Frame Qc) : list (list float64) :=
  take (length (data f))
       (replicate (length (labels f)) FNaN
        :: ((λ row : list Qc, Fin <$> row) <$> data f)).

(** [pivot.pct_change()], computed as [pivot / pivot.shift(1) - 1] *)
Definition pct_change (f : Frame Qc) : Frame float64 :=
  {| index := index f;
     labels := labels f;
     data := zip_with (zip_with (λ cur prev,
                fsub (fdiv (Fin cur) prev) (Fin 1%Qc)))
              (data f) (shift1 f) |}.

(** [.replace([np.inf, -np.inf], np.nan)] on a frame *)
Definition replace_infs (f : Frame float64) : Frame float64 :=
  {| index := index f;
     labels := labels f;
     data := (λ row : list float64, replace_inf <$> row) <$> data f |}.

(** Lines 140 and 141: [pivot]. *)
Definition pivot_of (agg : list agg_row) : Frame Qc :=
  sort_index (fillna0 (pivot_table agg)).

(** Line 144: [pct]. *)
Definition change_matrix (pivot : Frame Qc) : Frame float64 :=
  replace_infs (pct_change pivot).

(** The value in row [i] and column [j] of a frame. *)
Definition cell_at {V} (f : Frame V) (i j : nat) : option V :=
  data f !! i ≫= (λ row, row !! j).


(** Exceptions the script can raise on a table it has loaded. *)
Inductive exception :=
  | KeyError (key : cell).

(** [frame[key]]: the column labelled [key], as a series over the row axis;
    a key that is no column label raises [KeyError]. *)
Definition getitem (f : Frame Qc) (key : cell) : exception + Series Qc :=
  match list_find (λ c, c = key) (labels f) with
  | Some (j, _) =>
      inr (zip (index f) ((λ row, default 0%Qc (row !! j)) <$> data f))
  | None => inl (KeyError key)
  end.

(** [series.get(key, np.nan)] *)
Definition series_get (s : Series float64) (key : cell) : float64 :=
  match List.find (λ e, bool_decide (e.1 = key)) s with
  | Some e => e.2
  | None => FNaN
  end.

(** [.sort_values(ascending=False)] on a series of numbers *)
Definition sort_values_desc (s : Series Qc) : Series Qc :=
  sort_descending (λ a b, Qc_leb a.2 b.2) s.

(** Order of the floats that are not NaN. *)
Definition float_leb (a b : float64) : bool :=
  match a, b with
  | NInf, _ | _, PInf => true
  | Fin x, Fin y => Qc_leb x y
  | _, _ => false
  end.

(** [.sort_values(ascending=False)] on a series of floats: the entries that
    are NaN come last, in their order. *)
Definition sort_floats_desc (s : Series float64) : Series float64 :=
  sort_descending (λ a b, float_leb a.2 b.2) (filter (λ e, e.2 ≠ FNaN) s)
  ++ filter (λ e, e.2 = FNaN) s.

(** ** Chart *)

(** [agg.groupby(cat_col)['sales_amount'].sum()]: one entry per category,
    in ascending order of the category labels. *)
Definition total_by_cat (agg : list agg_row) : Series Qc :=
  (λ c, (c, Qc_sum (sales_amount <$> filter (λ r, agg_cat r = c) agg)))
    <$> sorted_unique (filter (λ c, c ≠ NaN) (agg_cat <$> agg)).

(** [total_by_cat.sort_values(ascending=False).head(top_n).index.tolist()] *)
Definition top_cats (agg : list agg_row) (top_n : Z) : list cell :=
  (head top_n (sort_values_desc (total_by_cat agg))).*1.

(** The lines drawn: one [plt.plot(pivot.index, pivot[c], label=str(c))] per
    [c in top_cats] that is a column of the pivot. *)
Definition chart_lines (pivot : Frame Qc) (cats : list cell)
    : list (cell * Series Qc) :=
  omap (λ c, match getitem pivot c with
             | inr s => Some (c, s)
             | inl _ => None
             end) cats.

(** ** Effects: messages, files, exceptions *)

(** The messages the script prints, one constructor per [print]. *)
Inductive message :=
  | MsgReading                       (* 读取: {input_path} *)
  | MsgRawRows (n : nat)             (* 原始行数: {len(df)} *)
  | MsgNoDateColumn                  (* 未能自动识别日期列。... *)
  | MsgColumns (cols : list string)  (* 可用列: {list(df.columns)} *)
  | MsgDetected (date_col : string) (cat_col amt_col qty_col : option string)
                                     (* 检测到列: 日期=.., 类别=.., 金额=.., 数量=.. *)
  | MsgInRange (n : nat)             (* 日期范围内行数: {len(df)} *)
  | MsgDuplicates (n : Z)            (* 去重移除: {before - len(df)} 行 *)
  | MsgNoAmountColumn                (* 未检测到金额列，... *)
  | MsgNoAmountSource                (* 没有可用的金额/数量列，无法继续。 *)
  | MsgMissingAmount (n : Z)         (* 移除缺失金额行: {before - len(df)} 行 *)
  | MsgSavedTables                   (* 已保存: {agg_csv}, {pivot_csv}, {pct_csv} *)
  | MsgSavedChart                    (* 已保存趋势图: {png} *)
  | MsgReportWritten                 (* 已生成报告: {report_path} *)
  | MsgTooFewMonths                  (* 数据月份不足，无法比较首末月变化。 *)
  | MsgDone.                         (* 完成。输出目录: {out_dir} *)

(** A line of [report.md]. An entry is
    ["{i}. {cat}: 增长|下降 {val:.2f}，环比(相对首月) {pctv:.2%}"]; it is kept
    here by its fields. *)
Inductive report_line :=
  | RTitle
  | RRange (s e : Timestamp)
  | RMonths (months : list cell)
  | RSection
  | RGainsHeading
  | RGain (i : nat) (cat : cell) (val : Qc) (pctv : float64)
  | RLossesHeading
  | RLoss (i : nat) (cat : cell) (val : Qc) (pctv : float64).

(** What a file written by the script holds. *)
Inductive artifact :=
  | AggCsv (agg : list agg_row)
  | PivotCsv (pivot : Frame Qc)
  | PctCsv (pct : Frame float64)
  | Figure (top : nat) (lines : list (cell * Series Qc))
  | ReportMd (lines : list report_line).

Inductive event :=
  | Printed (m : message)
  | Wrote (file : string) (a : artifact).

(** A computation of the script: the events so far, and either the exception
    that ended it or its value. *)
Definition M (A : Type) : Type := list event * (exception + A).

#[global] Instance M_ret : MRet M := λ A a, ([], inr a).

#[global] Instance M_bind : MBind M := λ A B f m,
  match m.2 with
  | inl e => (m.1, inl e)
  | inr a => (m.1 ++ (f a).1, (f a).2)
  end.

Definition print (m : message) : M unit := ([Printed m], inr tt).
Definition write (file : string) (a : artifact) : M unit :=
  ([Wrote file a], inr tt).
(** A step that may raise. *)
Definition try {A} (r : exception + A) : M A := ([], r).

(** The files written during a run, whether or not it ended normally. *)
Definition files {A} (m : M A) : list string :=
  omap (λ e, match e with Wrote f _ => Some f | Printed _ => None end) m.1.

Definition artifacts {A} (m : M A) : list (string * artifact) :=
  omap (λ e, match e with Wrote f a => Some (f, a) | Printed _ => None end)
       m.1.

Definition printed {A} (m : M A) : list message :=
  omap (λ e, match e with Printed x => Some x | Wrote _ _ => None end) m.1.

Definition raised {A} (m : M A) : option exception :=
  match m.2 with inl e => Some e | inr _ => None end.

(** ** The script *)

(** Command-line arguments that reach the analysis: [--start] and [--end]
    after [pd.to_datetime], and [--top-n]. *)
Record Args := mkArgs {
  start : Timestamp;
  end_ : Timestamp;
  top_n : Z
}.

(** Entries of one ranked list of the report:
    [for i, (cat, val) in enumerate(items, 1)] with
    [pctv = change_pct.get(cat, np.nan)]. *)
Definition report_entries
    (mk : nat → cell → Qc → float64 → report_line)
    (items : Series Qc) (change_pct : Series float64) : list report_line :=
  imap (λ i e, mk (S i) e.1 e.2 (series_get change_pct e.1)) items.

(** Lines 177 to 207: the report on the first and the last month. *)
Definition report (args : Args) (pivot : Frame Qc) : M unit :=
  let months := index pivot in
  if decide (2 ≤ length months)%nat then
    let first := List.hd NaN months in
    let last := List.last months NaN in
    col_last ← try (getitem pivot last);
    col_first ← try (getitem pivot first);
    let change := sort_values_desc
      (zip_with (λ a b, (a.1, (a.2 - b.2)%Qc)) col_last col_first) in
    let change_pct := sort_floats_desc
      (zip_with (λ a b, (a.1, fdiv (Fin (a.2 - b.2)%Qc) (replace_zero b.2)))
                col_last col_first) in
    let top_inc := head 10 change in
    let top_dec := tail 10 change in
    let report_lines :=
      [RTitle; RRange (start args) (end_ args); RMonths months; RSection]
      ++ [RGainsHeading] ++ report_entries RGain top_inc change_pct
      ++ [RLossesHeading] ++ report_entries RLoss top_dec change_pct in
    write "report.md" (ReportMd report_lines);;
    print MsgReportWritten
  else
    print MsgTooFewMonths.

(** Lines 82 to 89: the rows whose date parses and lies in
    [[start, end]]. *)
Definition select_dates `{Library} (args : Args) (date_col : string)
    (df : DataFrame) : DataFrame :=
  let df := coerce_date df date_col in
  let df := dropna date_col df in
  loc_mask (λ r, date_mask (start args) (end_ args) (at_col date_col r)) df.

(** Lines 113 to 120: the amount column made numeric, the rows without an
    amount dropped, the quantity column made numeric. Returns the table and
    the number of rows dropped. *)
Definition prepare `{Library} (amt_col : string) (qty_col : option string)
    (df : DataFrame) : DataFrame * Z :=
  let df := coerce_numeric amt_col df in
  let before := len df in
  let df := dropna amt_col df in
  let dropped := Z.of_nat before - Z.of_nat (len df) in
  let df := if usable qty_col df
            then coerce_numeric_fill0 (default EmptyString qty_col) df
            else df in
  (df, dropped).

(** Lines 113 to 209: from the table with its category filled and its amount
    column chosen, to the files. [qty_col] is the detected quantity
    column. *)
Definition analyze `{Library} (args : Args)
    (date_col cat_col amt_col : string) (qty_col : option string)
    (df : DataFrame) : M unit :=
  let '(df, dropped) := prepare amt_col qty_col df in
  print (MsgMissingAmount dropped);;
  let df := add_month date_col df in
  let agg := aggregate cat_col amt_col
               (if usable qty_col df then qty_col else None) df in
  let pivot := pivot_of agg in
  let pct := change_matrix pivot in
  write "aggregated_by_category_month.csv" (AggCsv agg);;
  write "sales_pivot.csv" (PivotCsv pivot);;
  write "sales_pct_change.csv" (PctCsv pct);;
  print MsgSavedTables;;
  let cats := top_cats agg (top_n args) in
  write "sales_trends_top.png" (Figure (length cats) (chart_lines pivot cats));;
  print MsgSavedChart;;
  report args pivot;;
  print MsgDone.

(** Lines 90 to 209: everything after the date filter. *)
Definition process `{Library} (args : Args) (date_col : string)
    (cat_col amt_col qty_col : option string) (df : DataFrame) : M unit :=
  print (MsgInRange (len df));;
  let before := len df in
  let df := drop_duplicates df in
  print (MsgDuplicates (Z.of_nat before - Z.of_nat (len df)));;
  let '(df, cat_col) :=
    match cat_col with
    | None =>
        (assign "产品类别_detected" (λ _, Str "未知") df,
         "产品类别_detected")
    | Some c => (fillna c (Str "未知") df, c)
    end in
  match amt_col with
  | Some amt_col => analyze args date_col cat_col amt_col qty_col df
  | None =>
      print MsgNoAmountColumn;;
      if usable qty_col df
      then analyze args date_col cat_col
             (default EmptyString qty_col) qty_col df
      else print MsgNoAmountSource
  end.

(** [main], from the table that [pd.read_excel] returned. *)
Definition main `{Library} (args : Args) (df : DataFrame) : M unit :=
  print MsgReading;;
  print (MsgRawRows (len df));;
  let date_col := detect_column df COMMON_DATE_COLS in
  let cat_col := detect_column df COMMON_CATEGORY_COLS in
  let amt_col := detect_column df COMMON_AMOUNT_COLS in
  let qty_col := detect_column df COMMON_QTY_COLS in
  match date_col with
  | None =>
      print MsgNoDateColumn;;
      print (MsgColumns (columns df))
  | Some date_col =>
      print (MsgDetected date_col cat_col amt_col qty_col);;
      process args date_col cat_col amt_col qty_col
        (select_dates args date_col df)
  end.

(** ** A concrete library and sample tables *)

(** [str.lower] on the letters A to Z; every other byte is kept. *)
Definition ascii_lower (a : ascii) : ascii :=
  let n := nat_of_ascii a in
  if ((65 <=? n) && (n <=? 90))%nat then ascii_of_nat (n + 32) else a.

Fixpoint lower_ascii (s : string) : string :=
  match s with
  | EmptyString => EmptyString
  | String a s' => String (ascii_lower a) (lower_ascii s')
  end.

(** The library routines on a table whose cells are typed already, as the
    cells of a spreadsheet are: a timestamp is a date, a number is a number,
    and nothing else converts. *)
Definition typed_date (c : cell) : option Timestamp :=
  match c with
  | Time t => if decide (valid_ts t) then Some t else None
  | _ => None
  end.

Lemma typed_date_valid (l : list cell) t :
  Some t ∈ typed_date <$> l → valid_ts t.
Proof.
  intros (c & Hc & _)%list_elem_of_fmap. destruct c as [| | |t']; try done.
  simpl in Hc. case_decide; by simplify_eq.
Qed.

Definition typed_cells : Library :=
  {| lower := lower_ascii;
     to_datetime := fmap typed_date;
     to_datetime_length := λ l, length_fmap _ l;
     to_datetime_valid := typed_date_valid;
     to_numeric := λ c, match c with Num q => Some q | _ => None end;
     to_numeric_num := λ q, eq_refl |}.

Definition Qc_of_Z (z : Z) : Qc := Q2Qc (inject_Z z).

(** A row of a table with the headers 日期, 产品类别, 金额. *)
Definition sale (d : Timestamp) (c : string) (a : cell) : gmap string cell :=
  <["日期" := Time d]> (<["产品类别" := Str c]> (<["金额" := a]> ∅)).

Definition sales_table (l : list (gmap string cell)) : DataFrame :=
  {| columns := ["日期"; "产品类别"; "金额"]; rows := l |}.

(** The default arguments: 2025-10-01 to 2026-01-31, ten categories. *)
Definition default_args : Args :=
  mkArgs (mkTimestamp 2025 10 1 0) (mkTimestamp 2026 1 31 0) 10.

(** Two sales of category A in October 2025 and one in November. *)
Definition two_months : DataFrame :=
  sales_table
    [sale (mkTimestamp 2025 10 3 0) "A" (Num (Qc_of_Z 100));
     sale (mkTimestamp 2025 10 20 0) "A" (Num (Qc_of_Z 200));
     sale (mkTimestamp 2025 11 5 0) "A" (Num (Qc_of_Z 50))].

(** A table whose headers match the date candidates only in lower case,
    twice. *)
Definition shouting_headers : DataFrame :=
  {| columns := ["DATE"; "金额"; "DaTe"]; rows := [] |}.

(** A table with the single header DATE. *)
Definition upper_header : DataFrame :=
  {| columns := ["DATE"]; rows := [] |}.

(** Membership in a literal list, case by case. *)
Ltac each_elem H :=
  cbn in H;
  repeat (apply elem_of_cons in H as [?|H]; [simplify_eq|]);
  [..|by apply elem_of_nil in H].

(** The rows of a cleaned table that fall in month [m] and category [c]. *)
Definition rows_in (date_col cat_col : string) (df : DataFrame) (m c : cell)
    : list (gmap string cell) :=
  filter (λ r, month_cell (at_col date_col r) = m ∧ at_col cat_col r = c)
         (rows df).

(** Proves [cleaned] for a table given by its rows. *)
Ltac cleaned_rows :=
  let r := fresh "r" in
  let Hr := fresh "Hr" in
  intros r Hr; each_elem Hr;
  (split_and!;
   [eexists; split; [reflexivity|unfold valid_ts; simpl; lia]
   |discriminate
   |eexists; reflexivity]).

(** Two categories with the same total; B comes first in the data. *)
Definition tied_categories : DataFrame :=
  sales_table
    [sale (mkTimestamp 2025 10 3 0) "B" (Num (Qc_of_Z 10));
     sale (mkTimestamp 2025 10 4 0) "A" (Num (Qc_of_Z 10))].

(** Its aggregate, as line 133 computes it. *)
Definition tied_agg : list agg_row :=
  aggregate "产品类别" "金额" None (add_month "日期" tied_categories).

(** The aggregate of [two_months], as line 133 computes it. *)
Definition two_months_agg : list agg_row :=
  aggregate "产品类别" "金额" None (add_month "日期" two_months).

(** Sales on the first day of the default range, on its last day, and on the
    day after. *)
Definition on_start : gmap string cell :=
  sale (mkTimestamp 2025 10 1 0) "A" (Num (Qc_of_Z 1)).
Definition on_end : gmap string cell :=
  sale (mkTimestamp 2026 1 31 0) "A" (Num (Qc_of_Z 2)).
Definition after_end : gmap string cell :=
  sale (mkTimestamp 2026 2 1 0) "A" (Num (Qc_of_Z 4)).
Definition boundary_dates : DataFrame :=
  sales_table [on_start; on_end; after_end].

(** A table with a quantity column and no amount column; the quantity of
    its second row is not a number. *)
Definition quantity_only : DataFrame :=
  {| columns := ["日期"; "产品类别"; "数量"];
     rows :=
       [<["日期" := Time (mkTimestamp 2025 10 3 0)]>
          (<["产品类别" := Str "A"]> (<["数量" := Num (Qc_of_Z 3)]> ∅));
        <["日期" := Time (mkTimestamp 2025 10 4 0)]>
          (<["产品类别" := Str "A"]> (<["数量" := Str "abc"]> ∅))] |}.

(** No candidate of [l1] has the lower-case form of a candidate of [l2]. *)
Definition separate `{Library} (l1 l2 : list string) : Prop :=
  Forall (λ x, Forall (λ y, lower x ≠ lower y) l2) l1.

(** What the script relies on when it detects its four columns one after
    the other and adds two columns of its own: a header cannot match the
    candidates of two roles, and neither added column can be taken for a
    detected one. With [str.lower] this holds of the candidate lists. *)
Definition roles_separate `{Library} : Prop :=
  separate COMMON_DATE_COLS COMMON_CATEGORY_COLS
  ∧ separate COMMON_DATE_COLS COMMON_AMOUNT_COLS
  ∧ separate COMMON_DATE_COLS COMMON_QTY_COLS
  ∧ separate COMMON_CATEGORY_COLS COMMON_AMOUNT_COLS
  ∧ separate COMMON_CATEGORY_COLS COMMON_QTY_COLS
  ∧ separate ["month"; "产品类别_detected"]
      (COMMON_DATE_COLS ++ COMMON_CATEGORY_COLS ++ COMMON_AMOUNT_COLS
       ++ COMMON_QTY_COLS).

#[global] Instance roles_separate_dec `{Library} : Decision roles_separate.
Proof. unfold roles_separate, separate. apply _. Defined.

(** A table without any date header. *)
Definition no_date_header : DataFrame :=
  {| columns := ["产品类别"; "金额"];
     rows := [<["产品类别" := Str "A"]> (<["金额" := Num (Qc_of_Z 5)]> ∅)] |}.

(** A table with a date and a category, and neither amount nor quantity. *)
Definition no_amount_source : DataFrame :=
  {| columns := ["日期"; "产品类别"];
     rows := [<["日期" := Time (mkTimestamp 2025 10 3 0)]>
                (<["产品类别" := Str "A"]> ∅)] |}.

(** A table with an amount and a quantity column: the quantity of the first
    row and the amount of the second are not numbers. *)
Definition amount_and_quantity : DataFrame :=
  {| columns := ["日期"; "产品类别"; "金额"; "数量"];
     rows :=
       [<["数量" := Str "abc"]>
          (sale (mkTimestamp 2025 10 3 0) "A" (Num (Qc_of_Z 5)));
        <["数量" := Num (Qc_of_Z 2)]>
          (sale (mkTimestamp 2025 10 4 0) "A" (Str "x"))] |}.

(** * Properties *)

(** ** detect_column *)

Section detect_props.
Context `{Library}.

Lemma first_exact_Some cols cands c :
  first_exact cols cands = Some c ↔
  ∃ pre post, cands = pre ++ c :: post ∧ c ∈ cols ∧ ∀ x, x ∈ pre → x ∉ cols.
Proof.
  induction cands as [|a cands IH]; simpl.
  - split; [done|]. intros (pre & post & Heq & _). by destruct pre.
  - case_decide as Ha.
    + split.
      * intros ?; simplify_eq. exists [], cands. split_and!; [done|done|].
        intros x Hx. by apply elem_of_nil in Hx.
      * intros (pre & post & Heq & Hc & Hpre). destruct pre as [|b pre];
          simplify_eq/=; [done|]. exfalso. apply (Hpre b); [left|done].
    + rewrite IH. split.
      * intros (pre & post & -> & Hc & Hpre). exists (a :: pre), post.
        split_and!; [done|done|]. intros x [->|Hx]%elem_of_cons; auto.
      * intros (pre & post & Heq & Hc & Hpre). destruct pre as [|b pre];
          simplify_eq/=; [done|]. exists pre, post. split_and!; [done|done|].
        intros x Hx. apply Hpre. by right.
Qed.

Lemma first_exact_None cols cands :
  first_exact cols cands = None ↔ ∀ x, x ∈ cands → x ∉ cols.
Proof.
  induction cands as [|a cands IH]; simpl.
  - split; [|done]. intros _ x Hx. by apply elem_of_nil in Hx.
  - case_decide as Ha.
    + split; [done|]. intros Hall. exfalso. apply (Hall a); [left|done].
    + rewrite IH. split.
      * intros Hall x [->|Hx]%elem_of_cons; auto.
      * intros Hall x Hx. apply Hall. by right.
Qed.

Lemma lowermap_foldl (m : gmap string string) cols k :
  foldl (λ m col, <[lower col := col]> m) m cols !! k =
  match last (spelled k cols) with
  | Some h => Some h
  | None => m !! k
  end.
Proof.
  revert m. induction cols as [|a cols IH]; intros m; simpl; [done|].
  rewrite IH. unfold spelled. rewrite filter_cons. case_decide as Ha.
  - rewrite last_cons. destruct (last (filter _ cols)); [done|].
    subst k. by rewrite lookup_insert_eq.
  - destruct (last (filter _ cols)); [done|]. by rewrite lookup_insert_ne.
Qed.

Lemma lowermap_lookup cols k :
  lowermap cols !! k = last (spelled k cols).
Proof.
  unfold lowermap. rewrite lowermap_foldl, lookup_empty.
  by destruct (last _).
Qed.

Lemma filter_nil_not_elem {A} (P : A → Prop) `{∀ x, Decision (P x)} l y :
  filter P l = [] → y ∈ l → ¬ P y.
Proof.
  intros Hnil Hy Py.
  assert (y ∈ filter P l) as Hin by (by apply list_elem_of_filter).
  rewrite Hnil in Hin. by apply elem_of_nil in Hin.
Qed.

Lemma last_filter_Some {A} (P : A → Prop) `{∀ x, Decision (P x)} l h :
  last (filter P l) = Some h ↔
  ∃ l1 l2, l = l1 ++ h :: l2 ∧ P h ∧ ∀ y, y ∈ l2 → ¬ P y.
Proof.
  induction l as [|a l IH]; simpl.
  - split; [done|]. intros (l1 & l2 & Heq & _). by destruct l1.
  - rewrite filter_cons. destruct (decide (P a)) as [Ha|Ha].
    + rewrite last_cons. destruct (last (filter P l)) as [h'|] eqn:Hl.
      * rewrite IH. split.
        -- intros (l1 & l2 & -> & ?). by exists (a :: l1), l2.
        -- intros (l1 & l2 & Heq & Hh & Hl2). destruct l1 as [|b l1];
             simplify_eq/=; [|by exists l1, l2].
           exfalso. apply last_Some in Hl as [l' Hl].
           assert (h' ∈ filter P l2) as [Hh' Hin]%list_elem_of_filter.
           { rewrite Hl. apply elem_of_app. right. left. }
           by apply (Hl2 h').
      * apply last_None in Hl. split.
        -- intros ?; simplify_eq. exists [], l. split_and!; [done|done|].
           intros y. by apply (filter_nil_not_elem P).
        -- intros (l1 & l2 & Heq & Hh & Hl2). destruct l1 as [|b l1];
             simplify_eq/=; [done|].
           exfalso. apply (filter_nil_not_elem P _ h Hl); [|done].
           apply elem_of_app. right. left.
    + rewrite IH. split.
      * intros (l1 & l2 & -> & ?). by exists (a :: l1), l2.
      * intros (l1 & l2 & Heq & Hh & Hl2). destruct l1 as [|b l1];
          simplify_eq/=; [done|]. by exists l1, l2.
Qed.

Lemma first_lower_Some (m : gmap string string) cands h :
  first_lower m cands = Some h ↔
  ∃ pre c post, cands = pre ++ c :: post ∧ m !! lower c = Some h
    ∧ ∀ x, x ∈ pre → m !! lower x = None.
Proof.
  induction cands as [|a cands IH]; simpl.
  - split; [done|]. intros (pre & c & post & Heq & _). by destruct pre.
  - destruct (m !! lower a) as [col|] eqn:Ha.
    + split.
      * intros ?; simplify_eq. exists [], a, cands. split_and!; [done|done|].
        intros x Hx. by apply elem_of_nil in Hx.
      * intros (pre & c & post & Heq & Hc & Hpre). destruct pre as [|b pre];
          simplify_eq/=; [done|].
        rewrite (Hpre b) in Ha; [done|left].
    + rewrite IH. split.
      * intros (pre & c & post & -> & Hc & Hpre). exists (a :: pre), c, post.
        split_and!; [done|done|]. intros x [->|Hx]%elem_of_cons; auto.
      * intros (pre & c & post & Heq & Hc & Hpre). destruct pre as [|b pre];
          simplify_eq/=.
        exists pre, c, post. split_and!; [done|done|].
        intros x Hx. apply Hpre. by right.
Qed.

Lemma first_lower_None (m : gmap string string) cands :
  first_lower m cands = None ↔ ∀ x, x ∈ cands → m !! lower x = None.
Proof.
  induction cands as [|a cands IH]; simpl.
  - split; [|done]. intros _ x Hx. by apply elem_of_nil in Hx.
  - destruct (m !! lower a) as [col|] eqn:Ha.
    + split; [done|]. intros Hall. rewrite (Hall a) in Ha; [done|left].
    + rewrite IH. split.
      * intros Hall x [->|Hx]%elem_of_cons; auto.
      * intros Hall x Hx. apply Hall. by right.
Qed.

Lemma lowermap_None cols k :
  lowermap cols !! k = None ↔ ∀ y, y ∈ cols → lower y ≠ k.
Proof.
  rewrite lowermap_lookup, last_None. unfold spelled. split.
  - intros Hnil y. by apply (filter_nil_not_elem (λ h, lower h = k)).
  - intros Hall. induction cols as [|a cols IH]; [done|].
    rewrite filter_cons. case_decide as Ha.
    + exfalso. apply (Hall a); [left|done].
    + apply IH. intros y Hy. apply Hall. by right.
Qed.

Lemma lowermap_Some cols k h :
  lowermap cols !! k = Some h ↔
  ∃ hs1 hs2, cols = hs1 ++ h :: hs2 ∧ lower h = k
    ∧ ∀ y, y ∈ hs2 → lower y ≠ k.
Proof.
  rewrite lowermap_lookup. unfold spelled.
  apply (last_filter_Some (λ h, lower h = k)).
Qed.

(** C9: when no candidate is a header as it stands, whatever
    [detect_column] returns is a header of the table in its own spelling: it
    has the lower-case form of the first candidate whose lower-case form is
    that of some header, and among the headers with that lower-case form it
    is the last one in column order. *)
Theorem detect_column_fuzzy_last_header df cands h :
  (∀ x, x ∈ cands → x ∉ columns df) →
  detect_column df cands = Some h →
  ∃ pre c post hs1 hs2,
    cands = pre ++ c :: post
    ∧ (∀ x y, x ∈ pre → y ∈ columns df → lower y ≠ lower x)
    ∧ columns df = hs1 ++ h :: hs2
    ∧ lower h = lower c
    ∧ ∀ y, y ∈ hs2 → lower y ≠ lower c.
Proof.
  intros Hex%first_exact_None. unfold detect_column. rewrite Hex.
  intros (pre & c & post & -> & Hc & Hpre)%first_lower_Some.
  apply lowermap_Some in Hc as (hs1 & hs2 & Hcols & Hh & Hlast).
  exists pre, c, post, hs1, hs2. split_and!; [done| |done|done|done].
  intros x y Hx. by apply lowermap_None, Hpre.
Qed.

(** C2, amended: [detect_column] returns the first candidate that is a
    header as it stands; if there is none, it returns, for the first
    candidate whose lower-case form is that of some header, the last header
    with that lower-case form, in the header's spelling; if no candidate
    matches even in lower case, it returns [None]. *)
Theorem detect_column_two_pass df cands :
  (∀ pre c post,
     cands = pre ++ c :: post → c ∈ columns df →
     (∀ x, x ∈ pre → x ∉ columns df) →
     detect_column df cands = Some c)
  ∧ (∀ pre c post hs1 h hs2,
       (∀ x, x ∈ cands → x ∉ columns df) →
       cands = pre ++ c :: post →
       (∀ x y, x ∈ pre → y ∈ columns df → lower y ≠ lower x) →
       columns df = hs1 ++ h :: hs2 → lower h = lower c →
       (∀ y, y ∈ hs2 → lower y ≠ lower c) →
       detect_column df cands = Some h)
  ∧ ((∀ x y, x ∈ cands → y ∈ columns df → lower y ≠ lower x) →
     detect_column df cands = None).
Proof.
  unfold detect_column. split_and!.
  - intros pre c post Hc Hin Hpre.
    assert (first_exact (columns df) cands = Some c) as ->; [|done].
    apply first_exact_Some. by exists pre, post.
  - intros pre c post hs1 h hs2 Hex%first_exact_None -> Hpre Hcols Hh Hlast.
    rewrite Hex. apply first_lower_Some. exists pre, c, post.
    split_and!; [done| |].
    + apply lowermap_Some. by exists hs1, hs2.
    + intros x Hx. apply lowermap_None. intros y. by apply Hpre.
  - intros Hnone.
    assert (first_exact (columns df) cands = None) as ->.
    { apply first_exact_None. intros x Hx Hin. by apply (Hnone x x). }
    apply first_lower_None. intros x Hx. apply lowermap_None.
    intros y. by apply Hnone.
Qed.
End detect_props.

Lemma detect_column_fuzzy_last_header_witness :
  ∃ pre c post hs1 hs2,
    COMMON_DATE_COLS = pre ++ c :: post
    ∧ (∀ x y, x ∈ pre → y ∈ columns shouting_headers →
         lower_ascii y ≠ lower_ascii x)
    ∧ columns shouting_headers = hs1 ++ "DaTe" :: hs2
    ∧ lower_ascii "DaTe" = lower_ascii c
    ∧ ∀ y, y ∈ hs2 → lower_ascii y ≠ lower_ascii c.
Proof.
  apply (detect_column_fuzzy_last_header (H:=typed_cells)
           shouting_headers COMMON_DATE_COLS "DaTe").
  - intros x Hx Hin. each_elem Hx; by each_elem Hin.
  - vm_compute. reflexivity.
Defined.

Lemma detect_column_two_pass_witness :
  detect_column (H:=typed_cells) (sales_table []) COMMON_AMOUNT_COLS
    = Some "金额"
  ∧ detect_column (H:=typed_cells) shouting_headers COMMON_DATE_COLS
    = Some "DaTe"
  ∧ detect_column (H:=typed_cells) shouting_headers COMMON_QTY_COLS = None.
Proof.
  split_and!.
  - apply (proj1 (detect_column_two_pass (H:=typed_cells) _ _)
             [] "金额" (List.tl COMMON_AMOUNT_COLS)).
    + reflexivity.
    + vm_compute. by repeat constructor.
    + intros x Hx. by apply elem_of_nil in Hx.
  - apply (proj1 (proj2 (detect_column_two_pass (H:=typed_cells) _ _))
             (take 4 COMMON_DATE_COLS) "date" (drop 5 COMMON_DATE_COLS)
             ["DATE"; "金额"] "DaTe" []).
    + intros x Hx Hin. each_elem Hx; by each_elem Hin.
    + reflexivity.
    + intros x y Hx Hy. by each_elem Hx; each_elem Hy.
    + reflexivity.
    + reflexivity.
    + intros y Hy. by apply elem_of_nil in Hy.
  - apply (proj2 (proj2 (detect_column_two_pass (H:=typed_cells) _ _))).
    intros x y Hx Hy. by each_elem Hx; each_elem Hy.
Defined.

(** C2, as stated, fails: with the single header DATE and the single
    candidate date, no candidate is a header as it stands, the candidate
    matches the header in lower case, and the value returned is the header
    DATE, not the candidate. *)
Lemma detect_column_returns_header_not_candidate :
  ¬ (∀ df cands pre c post,
       (∀ x, x ∈ cands → x ∉ columns df) →
       cands = pre ++ c :: post →
       (∀ x y, x ∈ pre → y ∈ columns df → lower_ascii y ≠ lower_ascii x) →
       (∃ y, y ∈ columns df ∧ lower_ascii y = lower_ascii c) →
       detect_column (H:=typed_cells) df cands = Some c).
Proof.
  intros Hclaim.
  specialize (Hclaim upper_header ["date"] [] "date" []).
  assert (detect_column (H:=typed_cells) upper_header ["date"] = Some "DATE")
    as Hrun by (vm_compute; reflexivity).
  rewrite Hrun in Hclaim. 
  assert (Some "DATE" = Some "date" → False) as Hne by discriminate.
  apply Hne, Hclaim.
  - intros x Hx Hin. each_elem Hx; by each_elem Hin.
  - reflexivity.
  - intros x y Hx. by apply elem_of_nil in Hx.
  - exists "DATE". split; [left|reflexivity].
Qed.

(** ** Orders *)

Section compare_laws.
Context {A : Type} (cmp : A → A → comparison) `{!CompareLaws cmp}.

Lemma cmp_refl a : cmp a a = Eq.
Proof. by apply (cmp_eq cmp). Qed.

Lemma cmp_gt_lt a b : cmp a b = Gt ↔ cmp b a = Lt.
Proof. rewrite (cmp_opp cmp a b). destruct (cmp a b); simpl; split; congruence. Qed.

Lemma leb_of_total a b : leb_of cmp a b = true ∨ leb_of cmp b a = true.
Proof.
  unfold leb_of. rewrite (cmp_opp cmp a b). destruct (cmp a b); simpl; auto.
Qed.

Lemma leb_of_false a b : leb_of cmp a b = false ↔ cmp b a = Lt.
Proof.
  unfold leb_of. rewrite (cmp_opp cmp a b).
  destruct (cmp a b); simpl; split; congruence.
Qed.

Lemma leb_of_trans a b c :
  leb_of cmp a b = true → leb_of cmp b c = true → leb_of cmp a c = true.
Proof.
  unfold leb_of. destruct (cmp a b) eqn:Hab; [|
    |done].
  - apply (cmp_eq cmp) in Hab as ->. done.
  - destruct (cmp b c) eqn:Hbc; [| |done].
    + apply (cmp_eq cmp) in Hbc as ->. by rewrite Hab.
    + by rewrite (cmp_lt_trans cmp a b c).
Qed.

Lemma leb_of_antisym a b :
  leb_of cmp a b = true → leb_of cmp b a = true → a = b.
Proof.
  unfold leb_of. rewrite (cmp_opp cmp a b).
  destruct (cmp a b) eqn:Hab; simpl; [|done..].
  intros _ _. by apply (cmp_eq cmp).
Qed.

Lemma leb_of_lt_or_eq a b :
  leb_of cmp a b = true ↔ cmp a b = Lt ∨ a = b.
Proof.
  unfold leb_of. destruct (cmp a b) eqn:Hab.
  - apply (cmp_eq cmp) in Hab. tauto.
  - tauto.
  - split; [done|]. intros [?| ->]; [done|]. by rewrite cmp_refl in Hab.
Qed.
End compare_laws.

#[global] Instance Z_compare_laws : CompareLaws Z.compare.
Proof.
  split.
  - apply Z.compare_eq_iff.
  - intros a b. apply Z.compare_antisym.
  - intros a b c. rewrite !Z.compare_lt_iff. lia.
Qed.

#[global] Instance Qc_compare_laws : CompareLaws Qccompare.
Proof.
  split.
  - intros a b. symmetry. apply Qceq_alt.
  - intros a b. unfold Qccompare. symmetry. apply Qcompare_antisym.
  - intros a b c. rewrite <- !Qclt_alt. apply Qclt_trans.
Qed.

#[global] Instance string_compare_laws : CompareLaws String.compare.
Proof.
  split.
  - intros a b. split; [apply String.compare_eq_iff|].
    intros ->. pose proof (String.compare_antisym b b) as Hb.
    destruct (String.compare b b); simpl in Hb; congruence.
  - intros a b. apply String.compare_antisym.
  - intros a b c Hab Hbc.
    apply OrderedTypeEx.String_as_OT.cmp_lt.
    apply OrderedTypeEx.String_as_OT.cmp_lt in Hab, Hbc.
    by eapply OrderedTypeEx.String_as_OT.lt_trans.
Qed.

Lemma ts_compare_Lt a b :
  ts_compare a b = Lt ↔
  year a < year b ∨ (year a = year b ∧ (month a < month b
    ∨ (month a = month b ∧ (day a < day b
      ∨ (day a = day b ∧ nanos a < nanos b))))).
Proof.
  unfold ts_compare.
  destruct (Z.compare_spec (year a) (year b));
    destruct (Z.compare_spec (month a) (month b));
    destruct (Z.compare_spec (day a) (day b));
    destruct (Z.compare_spec (nanos a) (nanos b));
    split; try done; try lia.
Qed.

Lemma ts_compare_Eq a b : ts_compare a b = Eq ↔ a = b.
Proof.
  unfold ts_compare. destruct a as [y m d n], b as [y' m' d' n']; simpl.
  destruct (Z.compare_spec y y'); destruct (Z.compare_spec m m');
    destruct (Z.compare_spec d d'); destruct (Z.compare_spec n n');
    split; intros ?; simplify_eq; try done; lia.
Qed.

#[global] Instance ts_compare_laws : CompareLaws ts_compare.
Proof.
  split.
  - apply ts_compare_Eq.
  - intros a b. unfold ts_compare.
    rewrite (Z.compare_antisym (year a)), (Z.compare_antisym (month a)),
      (Z.compare_antisym (day a)), (Z.compare_antisym (nanos a)).
    destruct (year a ?= year b), (month a ?= month b), (day a ?= day b),
      (nanos a ?= nanos b); done.
  - intros a b c. rewrite !ts_compare_Lt. lia.
Qed.

#[global] Instance cell_compare_laws : CompareLaws cell_compare.
Proof.
  split.
  - intros [|s|q|t] [|s'|q'|t']; simpl; try (split; discriminate || done).
    + rewrite (cmp_eq String.compare). split; congruence.
    + rewrite (cmp_eq Qccompare). split; congruence.
    + rewrite (cmp_eq ts_compare). split; congruence.
  - intros [|s|q|t] [|s'|q'|t']; simpl; try done.
    + apply (cmp_opp String.compare).
    + apply (cmp_opp Qccompare).
    + apply (cmp_opp ts_compare).
  - intros [|s|q|t] [|s'|q'|t'] [|s''|q''|t'']; simpl; try done.
    + apply (cmp_lt_trans String.compare).
    + apply (cmp_lt_trans Qccompare).
    + apply (cmp_lt_trans ts_compare).
Qed.

#[global] Instance pair_compare_laws : CompareLaws pair_compare.
Proof.
  split.
  - intros [a1 a2] [b1 b2]. unfold pair_compare; simpl.
    destruct (cell_compare a1 b1) eqn:H1.
    + apply (cmp_eq cell_compare) in H1 as ->.
      rewrite (cmp_eq cell_compare). split; congruence.
    + split; [done|]. intros ?; simplify_eq.
      by rewrite (cmp_refl cell_compare) in H1.
    + split; [done|]. intros ?; simplify_eq.
      by rewrite (cmp_refl cell_compare) in H1.
  - intros [a1 a2] [b1 b2]. unfold pair_compare; simpl.
    rewrite (cmp_opp cell_compare a1 b1),
      (cmp_opp cell_compare a2 b2).
    by destruct (cell_compare a1 b1).
  - intros [a1 a2] [b1 b2] [c1 c2]. unfold pair_compare; simpl.
    destruct (cell_compare a1 b1) eqn:H1; [| |done].
    + apply (cmp_eq cell_compare) in H1 as ->.
      destruct (cell_compare b1 c1); [|done..].
      apply (cmp_lt_trans cell_compare).
    + intros _. destruct (cell_compare b1 c1) eqn:H2; [| |done].
      * apply (cmp_eq cell_compare) in H2 as ->. by rewrite H1.
      * by rewrite (cmp_lt_trans cell_compare a1 b1 c1).
Qed.

(** ** Sorting *)


Lemma StronglySorted_impl {A} (R1 R2 : relation A) l :
  (∀ x y, x ∈ l → y ∈ l → R1 x y → R2 x y) →
  StronglySorted R1 l → StronglySorted R2 l.
Proof.
  intros Himpl Hl. induction Hl as [|x l Hl IH Hx]; constructor.
  - apply IH. intros y z Hy Hz. apply Himpl; by right.
  - rewrite Forall_forall in Hx |- *. intros y Hy.
    apply Himpl; [left|by right|by apply Hx].
Qed.

Lemma StronglySorted_lookup {A} (R : relation A) l i j x y :
  StronglySorted R l → (i < j)%nat → l !! i = Some x → l !! j = Some y →
  R x y.
Proof.
  intros Hl. revert i j. induction Hl as [|a l Hl IH Ha]; intros i j Hij Hi Hj.
  - by rewrite lookup_nil in Hi.
  - destruct j as [|j]; [lia|]. destruct i as [|i]; simpl in *.
    + simplify_eq. rewrite Forall_forall in Ha. apply Ha.
      by eapply list_elem_of_lookup_2.
    + apply (IH i j); [lia|done..].
Qed.

Section sorting_props.
Context {A : Type} (leb : A → A → bool).

Lemma insert_sorted_perm x l : insert_sorted leb x l ≡ₚ x :: l.
Proof.
  induction l as [|y l IH]; simpl; [done|].
  destruct (leb x y); [done|]. rewrite IH. apply Permutation_swap.
Qed.

Lemma stable_sort_perm l : stable_sort leb l ≡ₚ l.
Proof.
  induction l as [|x l IH]; simpl; [done|].
  by rewrite insert_sorted_perm, IH.
Qed.


Lemma stable_sort_elem_of x l : x ∈ stable_sort leb l ↔ x ∈ l.
Proof. by rewrite stable_sort_perm. Qed.

Lemma stable_sort_length l : length (stable_sort leb l) = length l.
Proof. by rewrite stable_sort_perm. Qed.

Lemma stable_sort_NoDup l : NoDup l → NoDup (stable_sort leb l).
Proof. by rewrite stable_sort_perm. Qed.

(** A list in ascending order is left as it is. *)
Lemma stable_sort_sorted l :
  StronglySorted (λ x y, leb x y = true) l → stable_sort leb l = l.
Proof.
  induction 1 as [|x l Hl IH Hx]; simpl; [done|].
  rewrite IH. destruct l as [|y l]; simpl; [done|].
  apply Forall_cons in Hx as [-> _]. done.
Qed.

Section total_order.
Hypothesis leb_total : ∀ a b, leb a b = true ∨ leb b a = true.
Hypothesis leb_trans :
  ∀ a b c, leb a b = true → leb b c = true → leb a c = true.

Lemma insert_sorted_stable T x l :
  StronglySorted (ascending_then leb T) l → Forall (T x) l →
  StronglySorted (ascending_then leb T) (insert_sorted leb x l).
Proof.
  intros Hl. induction Hl as [|y l Hl IH Hy]; intros Hx; simpl.
  - repeat constructor.
  - apply Forall_cons in Hx as [Txy Hx].
    destruct (leb x y) eqn:Hxy.
    + constructor; [by constructor|]. constructor; [done|].
      rewrite Forall_forall in Hy, Hx |- *. intros z Hz.
      split; [|by auto]. eapply leb_trans; [done|]. by apply Hy.
    + constructor; [by apply IH|].
      rewrite insert_sorted_perm. constructor; [|done].
      split; [|congruence]. by destruct (leb_total x y); [congruence|].
Qed.


Lemma stable_sort_ascending l :
  StronglySorted (λ x y, leb x y = true) (stable_sort leb l).
Proof.
  induction l as [|x l IH]; simpl; [constructor|].
  assert (StronglySorted (ascending_then leb (λ _ _, True)) (stable_sort leb l))
    as Hl.
  { eapply StronglySorted_impl; [|exact IH]. by split. }
  eapply StronglySorted_impl; [|apply insert_sorted_stable; [exact Hl|]].
  - by intros y z _ _ [? _].
  - by apply Forall_true.
Qed.

End total_order.
End sorting_props.

(** ** Distinct values *)

Section keep_first_props.
Context `{EqDecision A}.
Implicit Types l seen : list A.

Lemma keep_first_elem_of seen l x :
  x ∈ keep_first seen l ↔ x ∈ l ∧ x ∉ seen.
Proof.
  revert seen. induction l as [|a l IH]; intros seen; simpl.
  - split; [by intros ?%elem_of_nil|by intros [?%elem_of_nil _]].
  - case_decide as Ha.
    + rewrite IH, elem_of_cons. split; [tauto|].
      intros [[->|?] ?]; tauto.
    + rewrite !elem_of_cons, IH, elem_of_cons.
      destruct (decide (x = a)) as [->|]; tauto.
Qed.

Lemma keep_first_NoDup seen l : NoDup (keep_first seen l).
Proof.
  revert seen. induction l as [|a l IH]; intros seen; simpl.
  - constructor.
  - case_decide; [done|]. constructor; [|done].
    rewrite keep_first_elem_of, elem_of_cons. tauto.
Qed.

Lemma keep_first_nil_elem_of l x : x ∈ keep_first [] l ↔ x ∈ l.
Proof.
  rewrite keep_first_elem_of. split; [tauto|].
  intros ?. split; [done|]. by intros ?%elem_of_nil.
Qed.

(** Nothing is removed from a list without repetition. *)
Lemma keep_first_id seen l :
  NoDup l → (∀ x, x ∈ l → x ∉ seen) → keep_first seen l = l.
Proof.
  revert seen. induction l as [|a l IH]; intros seen Hl Hseen; simpl; [done|].
  apply NoDup_cons in Hl as [Ha Hl]. case_decide as Hin.
  - exfalso. apply (Hseen a); [left|done].
  - f_equal. apply IH; [done|]. intros x Hx [->|?]%elem_of_cons; [done|].
    apply (Hseen x); [by right|done].
Qed.

Lemma keep_first_length seen l : (length (keep_first seen l) ≤ length l)%nat.
Proof.
  revert seen. induction l as [|a l IH]; intros seen; simpl; [done|].
  case_decide; simpl; [|by apply le_n_S]. by apply Nat.le_le_succ_r.
Qed.
End keep_first_props.

Section sorted_keys.
Context {A : Type} `{EqDecision A} (cmp : A → A → comparison)
  `{!CompareLaws cmp}.

(** The distinct values of [l] in ascending order. *)
Lemma sorted_keys_elem_of l x :
  x ∈ stable_sort (leb_of cmp) (keep_first [] l) ↔ x ∈ l.
Proof. by rewrite stable_sort_elem_of, keep_first_nil_elem_of. Qed.

Lemma sorted_keys_NoDup l :
  NoDup (stable_sort (leb_of cmp) (keep_first [] l)).
Proof. apply stable_sort_NoDup, keep_first_NoDup. Qed.

Lemma sorted_keys_ascending l :
  StronglySorted (λ x y, leb_of cmp x y = true)
    (stable_sort (leb_of cmp) (keep_first [] l)).
Proof.
  apply stable_sort_ascending.
  - apply (leb_of_total cmp).
  - apply (leb_of_trans cmp).
Qed.

Lemma NoDup_ascending_strict l :
  NoDup l → StronglySorted (λ x y, leb_of cmp x y = true) l →
  StronglySorted (λ x y, cmp x y = Lt) l.
Proof.
  intros Hnd Hl. induction Hl as [|x l Hl IH Hx]; constructor.
  - apply IH. by apply NoDup_cons in Hnd as [_ ?].
  - apply NoDup_cons in Hnd as [Hnotin _].
    rewrite Forall_forall in Hx |- *. intros y Hy.
    destruct (proj1 (leb_of_lt_or_eq cmp x y) (Hx y Hy)) as [?| ->]; done.
Qed.

Lemma sorted_keys_strict l :
  StronglySorted (λ x y, cmp x y = Lt)
    (stable_sort (leb_of cmp) (keep_first [] l)).
Proof.
  apply NoDup_ascending_strict;
    [apply sorted_keys_NoDup|apply sorted_keys_ascending].
Qed.
End sorted_keys.

Lemma sorted_unique_elem_of l x : x ∈ sorted_unique l ↔ x ∈ l.
Proof. apply (sorted_keys_elem_of cell_compare). Qed.

Lemma sorted_unique_NoDup l : NoDup (sorted_unique l).
Proof. apply (sorted_keys_NoDup cell_compare). Qed.

Lemma sorted_unique_strict l :
  StronglySorted (λ x y, cell_compare x y = Lt) (sorted_unique l).
Proof. apply (sorted_keys_strict cell_compare). Qed.

Lemma sorted_unique_ascending l :
  StronglySorted (λ x y, cell_leb x y = true) (sorted_unique l).
Proof. apply (sorted_keys_ascending cell_compare). Qed.

(** ** Month labels sort chronologically *)

Lemma digit_compare i j :
  0 ≤ i < 10 → 0 ≤ j < 10 →
  Ascii.compare (digit i) (digit j) = (i ?= j).
Proof.
  intros Hi Hj.
  assert (i = 0 ∨ i = 1 ∨ i = 2 ∨ i = 3 ∨ i = 4 ∨ i = 5 ∨ i = 6 ∨ i = 7
          ∨ i = 8 ∨ i = 9) as Hcase_i by lia.
  assert (j = 0 ∨ j = 1 ∨ j = 2 ∨ j = 3 ∨ j = 4 ∨ j = 5 ∨ j = 6 ∨ j = 7
          ∨ j = 8 ∨ j = 9) as Hcase_j by lia.
  destruct_or!; subst; reflexivity.
Qed.

Lemma digit_mod n : digit n = digit (n `mod` 10).
Proof. unfold digit. by rewrite Z.mod_mod. Qed.

Lemma compare_radix q r q' r' :
  0 ≤ r < 10 → 0 ≤ r' < 10 →
  (10 * q + r ?= 10 * q' + r') =
  match q ?= q' with Eq => r ?= r' | o => o end.
Proof.
  intros Hr Hr'.
  destruct (Z.compare_spec q q'); destruct (Z.compare_spec r r');
    destruct (Z.compare_spec (10 * q + r) (10 * q' + r')); done || lia.
Qed.

Lemma compare_last_digit n n' :
  (n ?= n') =
  match n / 10 ?= n' / 10 with
  | Eq => n `mod` 10 ?= n' `mod` 10
  | o => o
  end.
Proof.
  rewrite <- compare_radix by (apply Z.mod_pos_bound; lia).
  by rewrite <- !Z.div_mod by lia.
Qed.

Lemma string_compare_cons a s b t :
  String.compare (String a s) (String b t) =
  match Ascii.compare a b with Eq => String.compare s t | o => o end.
Proof. reflexivity. Qed.

Lemma month_label_compare a b :
  valid_ts a → valid_ts b →
  String.compare (month_label a) (month_label b) =
  match year a ?= year b with Eq => month a ?= month b | o => o end.
Proof.
  intros [[? ?] [? ?]] [[? ?] [? ?]]. unfold month_label.
  rewrite !string_compare_cons.
  change (Ascii.compare "-" "-") with Eq. cbv iota.
  change (String.compare EmptyString EmptyString) with Eq.
  rewrite (digit_mod (year a / 1000)), (digit_mod (year b / 1000)),
    (digit_mod (year a / 100)), (digit_mod (year b / 100)),
    (digit_mod (year a / 10)), (digit_mod (year b / 10)),
    (digit_mod (year a)), (digit_mod (year b)),
    (digit_mod (month a / 10)), (digit_mod (month b / 10)),
    (digit_mod (month a)), (digit_mod (month b)).
  rewrite !digit_compare by (apply Z.mod_pos_bound; lia).
  rewrite (compare_last_digit (year a) (year b)),
    (compare_last_digit (year a / 10) (year b / 10)),
    (compare_last_digit (year a / 10 / 10) (year b / 10 / 10)),
    (compare_last_digit (month a) (month b)).
  rewrite !Z.div_div by lia. change (10 * 10) with 100.
  change (10 * 100) with 1000.
  rewrite (Z.mod_small (year a / 1000)), (Z.mod_small (year b / 1000)),
    (Z.mod_small (month a / 10)), (Z.mod_small (month b / 10)).
  2-5: split; [apply Z.div_pos; lia|apply Z.div_lt_upper_bound; lia].
  destruct (year a / 1000 ?= year b / 1000),
    ((year a / 100) `mod` 10 ?= (year b / 100) `mod` 10),
    ((year a / 10) `mod` 10 ?= (year b / 10) `mod` 10),
    (year a `mod` 10 ?= year b `mod` 10),
    (month a / 10 ?= month b / 10),
    (month a `mod` 10 ?= month b `mod` 10); done.
Qed.

(** On the labels of two valid timestamps, the order of the labels is the
    order of the calendar months. *)
Lemma month_label_lt a b :
  valid_ts a → valid_ts b →
  cell_compare (Str (month_label a)) (Str (month_label b)) = Lt ↔
  month_before a b.
Proof.
  intros Ha Hb. change (cell_compare (Str ?x) (Str ?y)) with (String.compare x y).
  rewrite month_label_compare by done.
  unfold month_before.
  destruct (Z.compare_spec (year a) (year b));
    destruct (Z.compare_spec (month a) (month b)); split; done || lia.
Qed.

(** ** The pivot and the change matrix *)

Lemma zip_sorted {A B} (leb : A → A → bool) (l1 : list A) (l2 : list B) :
  StronglySorted (λ x y, leb x y = true) l1 →
  StronglySorted (λ a b : A * B, leb a.1 b.1 = true) (zip l1 l2).
Proof.
  intros Hl. revert l2. induction Hl as [|x l Hl IH Hx]; intros [|y l2];
    simpl; [constructor..|].
  constructor; [apply IH|].
  apply Forall_forall. intros [a b] Hab. simpl.
  rewrite Forall_forall in Hx.
  apply Hx. by apply elem_of_zip_l in Hab.
Qed.

(** A frame whose rows are in ascending order of their labels is left as it
    is by [sort_index]. *)
Lemma sort_index_sorted {V} (f : Frame V) :
  StronglySorted (λ x y, cell_leb x y = true) (index f) →
  length (index f) = length (data f) →
  sort_index f = f.
Proof.
  intros Hs Hlen. unfold sort_index.
  rewrite (stable_sort_sorted _ (zip (index f) (data f)))
    by by apply (zip_sorted cell_leb).
  rewrite fst_zip, snd_zip by lia. by destruct f.
Qed.

Lemma pivot_of_unfold agg :
  pivot_of agg =
  {| index := sorted_unique (agg_month <$> agg);
     labels := sorted_unique (agg_cat <$> agg);
     data := (λ m, (λ c, default 0%Qc (agg_lookup agg m c))
                     <$> sorted_unique (agg_cat <$> agg))
               <$> sorted_unique (agg_month <$> agg) |}.
Proof.
  unfold pivot_of. rewrite sort_index_sorted.
  - unfold fillna0, pivot_table; simpl. f_equal.
    rewrite <- list_fmap_compose. apply list_fmap_ext. intros _ m _. simpl.
    by rewrite <- list_fmap_compose.
  - apply sorted_unique_ascending.
  - simpl. by rewrite !length_fmap.
Qed.


Lemma pivot_of_cell agg i j :
  cell_at (pivot_of agg) i j =
  m ← sorted_unique (agg_month <$> agg) !! i;
  c ← sorted_unique (agg_cat <$> agg) !! j;
  Some (default 0%Qc (agg_lookup agg m c)).
Proof.
  rewrite pivot_of_unfold. unfold cell_at; simpl.
  rewrite list_lookup_fmap.
  destruct (sorted_unique (agg_month <$> agg) !! i) as [m|]; simpl; [|done].
  rewrite list_lookup_fmap. by destruct (_ !! j).
Qed.







(** ** Aggregation by (month, category) *)

Lemma filter_fmap {A B} (f : A → B) (P : B → Prop) `{∀ y, Decision (P y)}
    (l : list A) :
  filter P (f <$> l) = f <$> filter (λ x, P (f x)) l.
Proof.
  induction l as [|x l IH]; [done|]. rewrite fmap_cons, !filter_cons.
  destruct (decide (P (f x))); by rewrite IH.
Qed.

Lemma filter_all {A} (P : A → Prop) `{∀ y, Decision (P y)} (l : list A) :
  (∀ x, x ∈ l → P x) → filter P l = l.
Proof.
  induction l as [|x l IH]; intros Hall; [done|]. rewrite filter_cons.
  rewrite decide_True by (apply Hall; left).
  f_equal. apply IH. intros y Hy. apply Hall. by right.
Qed.

(** The first row of [f <$> ks] with a given key, when [f k] has key [k]. *)
Lemma find_by_key (f : cell * cell → agg_row) (ks : list (cell * cell)) m c :
  (∀ k, agg_month (f k) = k.1) → (∀ k, agg_cat (f k) = k.2) →
  sales_amount <$>
    List.find (λ r, bool_decide (agg_month r = m ∧ agg_cat r = c)) (f <$> ks)
  = if decide ((m, c) ∈ ks) then Some (sales_amount (f (m, c))) else None.
Proof.
  intros Hm Hc. induction ks as [|[m' c'] ks IH]; [done|].
  rewrite fmap_cons. cbn [List.find]. rewrite Hm, Hc. cbn [fst snd].
  destruct (decide (m' = m ∧ c' = c)) as [[-> ->]|Hne].
  - rewrite bool_decide_eq_true_2 by done.
    rewrite decide_True by left. done.
  - rewrite bool_decide_eq_false_2 by done. rewrite IH.
    apply decide_ext. rewrite elem_of_cons. split; [by right|].
    intros [Heq|?]; [|done]. simplify_eq. by destruct Hne.
Qed.

Section aggregate_props.
Context (cat_col amt_col : string) (qty_col : option string)
  (df : DataFrame).

Lemma group_keys_elem_of k :
  k ∈ group_keys cat_col df ↔
  ∃ r, r ∈ keyed_rows cat_col df ∧ group_key cat_col r = k.
Proof.
  unfold group_keys. rewrite (sorted_keys_elem_of pair_compare).
  rewrite list_elem_of_fmap. split.
  - intros (r & -> & Hr). by exists r.
  - intros (r & Hr & <-). by exists r.
Qed.


Lemma group_keys_strict :
  StronglySorted (λ a b, pair_compare a b = Lt) (group_keys cat_col df).
Proof. apply (sorted_keys_strict pair_compare). Qed.

Lemma group_rows_elem_of k r :
  r ∈ group_rows cat_col df k ↔
  r ∈ keyed_rows cat_col df ∧ group_key cat_col r = k.
Proof. unfold group_rows. rewrite list_elem_of_filter. tauto. Qed.

(** A key of [agg] has at least one row; any other pair has none. *)
Lemma group_rows_nil k :
  group_rows cat_col df k = [] ↔ k ∉ group_keys cat_col df.
Proof.
  rewrite group_keys_elem_of. split.
  - intros Hnil (r & Hr & Hk).
    assert (r ∈ group_rows cat_col df k) as Hin
      by by apply group_rows_elem_of.
    rewrite Hnil in Hin. by apply elem_of_nil in Hin.
  - intros Hnone. destruct (group_rows cat_col df k) as [|r g] eqn:Hg; [done|].
    exfalso. apply Hnone. exists r. apply group_rows_elem_of.
    rewrite Hg. left.
Qed.

Lemma aggregate_keys :
  (λ a, (agg_month a, agg_cat a))
    <$> aggregate cat_col amt_col qty_col df = group_keys cat_col df.
Proof.
  unfold aggregate. rewrite <- list_fmap_compose.
  rewrite <- (list_fmap_id (group_keys cat_col df)) at 2.
  apply list_fmap_ext. by intros _ [m c] _.
Qed.


Lemma agg_lookup_aggregate m c :
  agg_lookup (aggregate cat_col amt_col qty_col df) m c =
  if decide ((m, c) ∈ group_keys cat_col df)
  then Some (col_sum amt_col (group_rows cat_col df (m, c)))
  else None.
Proof.
  unfold agg_lookup, aggregate. apply find_by_key; done.
Qed.

(** The value the pivot holds for a month and a category, filled with zero
    where [agg] has no row, is the sum over the rows of the pair. *)
Lemma pivot_value m c :
  default 0%Qc (agg_lookup (aggregate cat_col amt_col qty_col df) m c) =
  col_sum amt_col (group_rows cat_col df (m, c)).
Proof.
  rewrite agg_lookup_aggregate. case_decide as Hk; [done|].
  apply group_rows_nil in Hk. by rewrite Hk.
Qed.
End aggregate_props.

(** ** From the cleaned table to the aggregate *)

Lemma at_col_insert col v (r : gmap string cell) :
  at_col col (<[col := v]> r) = v.
Proof. unfold at_col. by rewrite lookup_insert_eq. Qed.

Lemma at_col_insert_ne col col' v (r : gmap string cell) :
  col ≠ col' → at_col col' (<[col := v]> r) = at_col col' r.
Proof. intros ?. unfold at_col. by rewrite lookup_insert_ne. Qed.

Lemma month_cell_not_nan c : month_cell c ≠ NaN.
Proof. by destruct c. Qed.

Lemma rows_add_month date_col df :
  rows (add_month date_col df) = with_month date_col <$> rows df.
Proof. done. Qed.

Lemma col_sum_fmap_insert col col' f (g : list (gmap string cell)) :
  col ≠ col' →
  col_sum col' ((λ r, <[col := f r]> r) <$> g) = col_sum col' g.
Proof.
  intros Hne. unfold col_sum. rewrite <- list_fmap_compose.
  f_equal. apply list_fmap_ext. intros _ r _. simpl.
  by rewrite at_col_insert_ne.
Qed.


Section cleaned_props.
Context (date_col cat_col amt_col : string) (df : DataFrame).
Hypothesis cat_not_month : cat_col ≠ "month".
Hypothesis amt_not_month : amt_col ≠ "month".
Hypothesis df_cleaned : cleaned date_col cat_col amt_col df.

Lemma keyed_rows_add_month :
  keyed_rows cat_col (add_month date_col df) = with_month date_col <$> rows df.
Proof.
  unfold keyed_rows. rewrite rows_add_month. apply filter_all.
  intros r' (r & -> & Hr)%list_elem_of_fmap. unfold with_month.
  rewrite at_col_insert, at_col_insert_ne by done.
  split; [apply month_cell_not_nan|]. by apply df_cleaned.
Qed.

Lemma group_rows_add_month m c :
  group_rows cat_col (add_month date_col df) (m, c) =
  with_month date_col <$> rows_in date_col cat_col df m c.
Proof.
  unfold group_rows. rewrite keyed_rows_add_month, filter_fmap.
  f_equal. apply list_filter_iff. intros r. unfold group_key, with_month.
  rewrite at_col_insert, at_col_insert_ne by done.
  split; [by intros [= -> ->]|by intros [-> ->]].
Qed.

Lemma group_keys_add_month m c :
  (m, c) ∈ group_keys cat_col (add_month date_col df) ↔
  ∃ r, r ∈ rows df ∧ month_cell (at_col date_col r) = m
       ∧ at_col cat_col r = c.
Proof.
  rewrite group_keys_elem_of, keyed_rows_add_month. split.
  - intros (r' & (r & -> & Hr)%list_elem_of_fmap & Hk). exists r.
    unfold group_key, with_month in Hk.
    rewrite at_col_insert, at_col_insert_ne in Hk by done.
    by simplify_eq.
  - intros (r & Hr & <- & <-). exists (with_month date_col r). split.
    + apply list_elem_of_fmap. by exists r.
    + unfold group_key, with_month.
      by rewrite at_col_insert, at_col_insert_ne.
Qed.

Lemma rows_in_elem_of m c r :
  r ∈ rows_in date_col cat_col df m c ↔
  r ∈ rows df ∧ month_cell (at_col date_col r) = m ∧ at_col cat_col r = c.
Proof. unfold rows_in. rewrite list_elem_of_filter. tauto. Qed.

Lemma col_sum_group col m c :
  col ≠ "month" →
  col_sum col (group_rows cat_col (add_month date_col df) (m, c)) =
  col_sum col (rows_in date_col cat_col df m c).
Proof.
  intros Hcol. rewrite group_rows_add_month.
  by apply (col_sum_fmap_insert "month").
Qed.

End cleaned_props.


Lemma two_months_cleaned : cleaned "日期" "产品类别" "金额" two_months.
Proof. cleaned_rows. Qed.


(** The label of a timestamp in October 2025. *)
Example month_label_2025_10 :
  month_label (mkTimestamp 2025 10 3 0) = "2025-10".
Proof. reflexivity. Qed.

(** ** The pivot of the aggregate *)

Lemma labelled_months (l : list cell) :
  (∀ m, m ∈ l → ∃ t, m = Str (month_label t) ∧ valid_ts t) →
  ∃ ts, l = (λ t, Str (month_label t)) <$> ts ∧ Forall valid_ts ts.
Proof.
  induction l as [|m l IH]; intros Hall.
  - by exists [].
  - destruct (Hall m) as (t & -> & Ht); [left|].
    destruct IH as (ts & -> & Hts).
    { intros m' Hm'. apply Hall. by right. }
    exists (t :: ts). split; [done|by constructor].
Qed.

Lemma chronological ts :
  Forall valid_ts ts →
  StronglySorted (λ x y, cell_compare x y = Lt)
    ((λ t, Str (month_label t)) <$> ts) →
  StronglySorted month_before ts.
Proof.
  induction ts as [|t ts IH]; intros Hv Hs; [constructor|].
  apply Forall_cons in Hv as [Ht Hv].
  rewrite fmap_cons in Hs. apply StronglySorted_cons in Hs as [Hall Hs].
  constructor; [by apply IH|].
  apply Forall_forall. intros t' Ht'.
  rewrite Forall_forall in Hall. rewrite Forall_forall in Hv.
  apply month_label_lt; [done|by apply Hv|].
  apply Hall. apply list_elem_of_fmap. by exists t'.
Qed.

(** C4: the pivot of the aggregate of a cleaned table has one row for each
    month some row of the table falls in and one column for each category
    some row has, without repetition; its rows are the months in strictly
    ascending chronological order; the cell of a month and a category is the
    sum of the amount column over the table's rows of that month and
    category, and it is zero when the aggregate has no row for the pair. *)
Theorem pivot_spec date_col cat_col amt_col qty_col df :
  cat_col ≠ "month" → amt_col ≠ "month" →
  cleaned date_col cat_col amt_col df →
  let agg := aggregate cat_col amt_col qty_col (add_month date_col df) in
  let pivot := pivot_of agg in
  NoDup (index pivot)
  ∧ (∀ m, m ∈ index pivot ↔
          ∃ r t, r ∈ rows df ∧ at_col date_col r = Time t
                 ∧ m = Str (month_label t))
  ∧ NoDup (labels pivot)
  ∧ (∀ c, c ∈ labels pivot ↔ ∃ r, r ∈ rows df ∧ at_col cat_col r = c)
  ∧ (∃ ts, index pivot = (λ t, Str (month_label t)) <$> ts
           ∧ Forall valid_ts ts ∧ StronglySorted month_before ts)
  ∧ (∀ i j m c,
       index pivot !! i = Some m → labels pivot !! j = Some c →
       cell_at pivot i j = Some (col_sum amt_col (rows_in date_col cat_col df m c))
       ∧ ((∀ a, a ∈ agg → ¬ (agg_month a = m ∧ agg_cat a = c)) →
          cell_at pivot i j = Some 0%Qc)).
Proof.
  intros Hcat Hamt Hclean agg pivot.
  assert (∀ m c, (m, c) ∈ (λ a, (agg_month a, agg_cat a)) <$> agg ↔
            ∃ r, r ∈ rows df ∧ month_cell (at_col date_col r) = m
                 ∧ at_col cat_col r = c) as Hkeys.
  { intros m c. unfold agg. rewrite aggregate_keys.
    by apply (group_keys_add_month date_col cat_col amt_col). }
  assert (∀ m, m ∈ index pivot ↔
            ∃ r t, r ∈ rows df ∧ at_col date_col r = Time t
                   ∧ m = Str (month_label t)) as Hindex.
  { intros m. unfold pivot. rewrite pivot_of_unfold. simpl.
    rewrite sorted_unique_elem_of, list_elem_of_fmap. split.
    - intros (a & -> & Ha).
      destruct (proj1 (Hkeys (agg_month a) (agg_cat a))) as (r & Hr & Hm & _).
      { apply list_elem_of_fmap. by exists a. }
      destruct (Hclean r Hr) as ((t & Ht & _) & _).
      exists r, t. rewrite Ht in Hm. by split_and!.
    - intros (r & t & Hr & Ht & ->).
      assert ((Str (month_label t), at_col cat_col r)
                ∈ (λ a, (agg_month a, agg_cat a)) <$> agg) as Hk.
      { apply Hkeys. exists r. by rewrite Ht. }
      apply list_elem_of_fmap in Hk as (a & Ha & Hin).
      exists a. by simplify_eq. }
  split_and!.
  - unfold pivot. rewrite pivot_of_unfold. apply sorted_unique_NoDup.
  - done.
  - unfold pivot. rewrite pivot_of_unfold. apply sorted_unique_NoDup.
  - intros c. unfold pivot. rewrite pivot_of_unfold. simpl.
    rewrite sorted_unique_elem_of, list_elem_of_fmap. split.
    + intros (a & -> & Ha).
      destruct (proj1 (Hkeys (agg_month a) (agg_cat a))) as (r & Hr & _ & Hc).
      { apply list_elem_of_fmap. by exists a. }
      by exists r.
    + intros (r & Hr & <-).
      assert ((month_cell (at_col date_col r), at_col cat_col r)
                ∈ (λ a, (agg_month a, agg_cat a)) <$> agg) as Hk.
      { apply Hkeys. by exists r. }
      apply list_elem_of_fmap in Hk as (a & Ha & Hin).
      exists a. by simplify_eq.
  - destruct (labelled_months (index pivot)) as (ts & Hts & Hvalid).
    { intros m (r & t & Hr & Ht & ->)%Hindex. exists t. split; [done|].
      destruct (Hclean r Hr) as ((t' & Ht' & Hv) & _). congruence. }
    exists ts. split_and!; [done..|]. apply chronological; [done|].
    rewrite <- Hts. unfold pivot. rewrite pivot_of_unfold.
    apply sorted_unique_strict.
  - intros i j m c Hi Hj.
    assert (cell_at pivot i j
            = Some (col_sum amt_col (rows_in date_col cat_col df m c)))
      as Hcell.
    { unfold pivot in *. rewrite pivot_of_cell.
      rewrite pivot_of_unfold in Hi, Hj. simpl in Hi, Hj.
      rewrite Hi. simpl. rewrite Hj. simpl. unfold agg.
      rewrite pivot_value.
      by rewrite (col_sum_group date_col cat_col amt_col). }
    split; [done|]. intros Hnone. rewrite Hcell. do 2 f_equal.
    destruct (rows_in date_col cat_col df m c) as [|r g] eqn:Hg; [done|].
    exfalso.
    assert (r ∈ rows_in date_col cat_col df m c) as Hr by (rewrite Hg; left).
    apply rows_in_elem_of in Hr as (Hr & Hm & Hc).
    assert ((m, c) ∈ (λ a, (agg_month a, agg_cat a)) <$> agg) as Hk.
    { apply Hkeys. by exists r. }
    apply list_elem_of_fmap in Hk as (a & Ha & Hin).
    apply (Hnone a Hin). by simplify_eq.
Qed.

Lemma pivot_spec_witness :
  cleaned "日期" "产品类别" "金额" two_months
  ∧ NoDup (index (pivot_of (aggregate "产品类别" "金额" None
                              (add_month "日期" two_months)))).
Proof.
  split; [apply two_months_cleaned|].
  apply (pivot_spec "日期" "产品类别" "金额" None two_months);
    [discriminate..|apply two_months_cleaned].
Defined.

(** ** The report *)

Lemma bind_ok {A B} (m : M A) (f : A → M B) a :
  m.2 = inr a → (m ≫= f) = (m.1 ++ (f a).1, (f a).2).
Proof. intros Hm. unfold mbind, M_bind. by rewrite Hm. Qed.

Lemma bind_raise {A B} (m : M A) (f : A → M B) e :
  m.2 = inl e → (m ≫= f) = (m.1, inl e).
Proof. intros Hm. unfold mbind, M_bind. by rewrite Hm. Qed.

Lemma getitem_missing (f : Frame Qc) key :
  key ∉ labels f → getitem f key = inl (KeyError key).
Proof.
  intros Hkey. unfold getitem.
  destruct (list_find (λ c, c = key) (labels f)) as [[j c]|] eqn:Hfind;
    [|done].
  apply list_find_Some in Hfind as (Hj & -> & _).
  exfalso. apply Hkey. by eapply list_elem_of_lookup_2.
Qed.


(** With fewer than two months the report is skipped with a message, and
    nothing is raised. *)
Lemma report_below_two_months args (pivot : Frame Qc) :
  (length (index pivot) < 2)%nat →
  report args pivot = ([Printed MsgTooFewMonths], inr tt).
Proof.
  intros Hlen. unfold report. rewrite decide_False by lia. done.
Qed.

(** With two months or more, [pivot[last]] looks the last month up among the
    column labels, which are the categories: unless a category bears the
    label of the last month, the lookup raises and no report is written. *)
Lemma report_raises_KeyError args (pivot : Frame Qc) :
  (2 ≤ length (index pivot))%nat →
  List.last (index pivot) NaN ∉ labels pivot →
  report args pivot = ([], inl (KeyError (List.last (index pivot) NaN))).
Proof.
  intros Hlen Hlast. unfold report. rewrite decide_True by done.
  by rewrite (bind_raise _ _ (KeyError (List.last (index pivot) NaN)))
    by (simpl; by rewrite getitem_missing).
Qed.

Section analyze_props.
Context `{Library}.

End analyze_props.

(** C5, the code at a table with two months: the three tables and the chart
    are written, then [pivot[last]] raises [KeyError] on the label of the
    last month, and report.md is not written. *)
Theorem main_two_months_raises :
  raised (main (H:=typed_cells) default_args two_months)
    = Some (KeyError (Str "2025-11"))
  ∧ files (main (H:=typed_cells) default_args two_months)
    = ["aggregated_by_category_month.csv"; "sales_pivot.csv";
       "sales_pct_change.csv"; "sales_trends_top.png"].
Proof. split; vm_compute; reflexivity. Qed.

(** C6, the code at the pivot of the same table: the report step computes no
    change at all, it ends in the [KeyError] of [pivot[last]]. *)
Theorem report_two_months_raises :
  index (pivot_of (aggregate "产品类别" "金额" None
                     (add_month "日期" two_months)))
    = [Str "2025-10"; Str "2025-11"]
  ∧ labels (pivot_of (aggregate "产品类别" "金额" None
                        (add_month "日期" two_months)))
    = [Str "A"]
  ∧ report default_args
      (pivot_of (aggregate "产品类别" "金额" None
                   (add_month "日期" two_months)))
    = ([], inl (KeyError (Str "2025-11"))).
Proof. split_and!; vm_compute; reflexivity. Qed.

(** ** The date filter *)

Lemma ts_lt_not_le a b : ts_lt a b = true → ts_le b a = false.
Proof.
  unfold ts_lt, ts_le. intros Hlt. apply (leb_of_false ts_compare).
  by destruct (ts_compare a b).
Qed.

Lemma ts_le_refl a : ts_le a a = true.
Proof. unfold ts_le, leb_of. by rewrite (cmp_refl ts_compare). Qed.

Section date_filter.
Context `{Library}.

Lemma select_dates_columns args date_col df :
  date_col ∈ columns df →
  columns (select_dates args date_col df) = columns df.
Proof. intros Hin. simpl. by rewrite decide_True. Qed.

Lemma select_dates_rows args date_col df r :
  r ∈ rows (select_dates args date_col df) ↔
  r ∈ rows (dropna date_col (coerce_date df date_col))
  ∧ ∃ t, at_col date_col r = Time t
         ∧ ts_le (start args) t = true ∧ ts_le t (end_ args) = true.
Proof.
  unfold select_dates, loc_mask; simpl. rewrite list_elem_of_filter.
  split.
  - intros [Hmask Hr]. split; [done|].
    destruct (at_col date_col r) as [| | |t]; try done.
    exists t. apply andb_true_iff in Hmask. by split.
  - intros [Hr (t & -> & Hs & He)]. split; [|done].
    simpl. unfold ts_ge. by rewrite Hs, He.
Qed.

Lemma main_unfold args df :
  main args df =
  match detect_column df COMMON_DATE_COLS with
  | None =>
      ([Printed MsgReading; Printed (MsgRawRows (len df));
        Printed MsgNoDateColumn; Printed (MsgColumns (columns df))], inr tt)
  | Some date_col =>
      let rest :=
        process args date_col (detect_column df COMMON_CATEGORY_COLS)
          (detect_column df COMMON_AMOUNT_COLS)
          (detect_column df COMMON_QTY_COLS)
          (select_dates args date_col df) in
      ([Printed MsgReading; Printed (MsgRawRows (len df));
        Printed (MsgDetected date_col
                   (detect_column df COMMON_CATEGORY_COLS)
                   (detect_column df COMMON_AMOUNT_COLS)
                   (detect_column df COMMON_QTY_COLS))] ++ rest.1, rest.2)
  end.
Proof.
  unfold main. destruct (detect_column df COMMON_DATE_COLS) as [dc|]; [|done].
  match goal with
  | |- context [process ?a ?b ?c ?d ?e ?f] => generalize (process a b c d e f)
  end.
  intros [evs [e|[]]]; unfold mbind, M_bind; simpl; done.
Qed.

Lemma detect_column_columns df df' cands :
  columns df' = columns df →
  detect_column df' cands = detect_column df cands.
Proof. intros Hcols. unfold detect_column. by rewrite Hcols. Qed.

(** C7: a row whose parsed date lies strictly before [start] or strictly
    after [end] is not in the table that line 89 keeps, a row whose parsed
    date is [start] or [end] is (for [start <= end]), every row kept has its
    date within the two bounds, and the files written and the exception
    raised, if any, are determined by the columns and the table kept: two
    inputs with the same columns and the same rows kept give the same
    outputs. *)
Theorem date_filter_spec args date_col df :
  let parsed := dropna date_col (coerce_date df date_col) in
  let kept := select_dates args date_col df in
  (∀ r t, r ∈ rows parsed → at_col date_col r = Time t →
          ts_lt t (start args) = true ∨ ts_lt (end_ args) t = true →
          r ∉ rows kept)
  ∧ (ts_le (start args) (end_ args) = true →
     ∀ r, r ∈ rows parsed →
          at_col date_col r = Time (start args)
          ∨ at_col date_col r = Time (end_ args) →
          r ∈ rows kept)
  ∧ (∀ r, r ∈ rows kept →
          r ∈ rows parsed
          ∧ ∃ t, at_col date_col r = Time t
                 ∧ ts_le (start args) t = true ∧ ts_le t (end_ args) = true)
  ∧ (∀ df',
       columns df' = columns df →
       (∀ c, select_dates args c df' = select_dates args c df) →
       artifacts (main args df') = artifacts (main args df)
       ∧ raised (main args df') = raised (main args df)).
Proof.
  intros parsed kept. split_and!.
  - intros r t Hr Ht Hout (_ & t' & Ht' & Hs & He)%select_dates_rows.
    rewrite Ht in Ht'. injection Ht' as <-.
    destruct Hout as [Hout|Hout]; apply ts_lt_not_le in Hout; congruence.
  - intros Hse r Hr Hdate. apply select_dates_rows. split; [done|].
    destruct Hdate as [Hdate|Hdate]; eexists; (split; [exact Hdate|]);
      split; [apply ts_le_refl|done|done|apply ts_le_refl].
  - intros r Hr. by apply select_dates_rows.
  - intros df' Hcols Hkept. rewrite !main_unfold.
    rewrite !(detect_column_columns df df') by done.
    destruct (detect_column df COMMON_DATE_COLS) as [dc|]; [|done].
    rewrite Hkept. unfold artifacts, raised. simpl. done.
Qed.
End date_filter.

(** When dates are parsed value by value, a row that does not parse or that
    parses to a date outside the bounds can be taken out of the input
    without any effect on the table kept. *)
Lemma out_of_range_row_ignored `{Library} (f : cell → option Timestamp)
    args date_col cols l1 r l2 :
  (∀ l, to_datetime l = f <$> l) →
  (∀ t, f (at_col date_col r) = Some t →
        ts_lt t (start args) = true ∨ ts_lt (end_ args) t = true) →
  select_dates args date_col {| columns := cols; rows := l1 ++ r :: l2 |} =
  select_dates args date_col {| columns := cols; rows := l1 ++ l2 |}.
Proof.
  intros Hf Hout. unfold select_dates, loc_mask, dropna, coerce_date.
  simpl. f_equal. rewrite !Hf.
  rewrite !zip_with_fmap_r, !zip_with_diag.
  rewrite !fmap_app, fmap_cons, !filter_app. f_equal.
  rewrite (filter_cons (λ r, at_col date_col r ≠ NaN)), at_col_insert.
  destruct (f (at_col date_col r)) as [t|] eqn:Ht.
  - rewrite decide_True by done. rewrite filter_cons, at_col_insert.
    rewrite decide_False; [done|]. simpl. unfold ts_ge.
    destruct (Hout t eq_refl) as [Hlt|Hlt]; apply ts_lt_not_le in Hlt;
      rewrite Hlt; [done|]. by rewrite andb_false_r.
  - rewrite decide_False; [done|]. by intros [].
Qed.

(** ** The quantity column as amount *)

Section quantity_as_amount.
Context `{Library}.

Lemma coerced_rows col (l : list (gmap string cell)) :
  filter (λ r, at_col col r ≠ NaN)
    ((λ r, <[col := match to_numeric (at_col col r) with
                   | Some q => Num q
                   | None => NaN
                   end]> r) <$> l)
  = omap (λ r, (λ v, <[col := Num v]> r) <$> to_numeric (at_col col r)) l.
Proof.
  induction l as [|r l IH]; [done|].
  rewrite fmap_cons, filter_cons, at_col_insert.
  change (omap ?g (r :: l)) with
    (match g r with Some y => y :: omap g l | None => omap g l end).
  cbn beta.
  destruct (to_numeric (at_col col r)) as [v|]; cbn [fmap option_fmap option_map].
  - rewrite decide_True by done. by rewrite IH.
  - rewrite decide_False by (by intros []). done.
Qed.

Lemma coerced_rows_length col (l : list (gmap string cell)) :
  Z.of_nat (length l)
  - Z.of_nat (length (omap (λ r, (λ v, <[col := Num v]> r)
                                   <$> to_numeric (at_col col r)) l))
  = Z.of_nat (length (filter (λ r, to_numeric (at_col col r) = None) l)).
Proof.
  induction l as [|r l IH]; [done|]. rewrite filter_cons.
  change (omap ?g (r :: l)) with
    (match g r with Some y => y :: omap g l | None => omap g l end).
  cbn beta.
  destruct (to_numeric (at_col col r)) as [v|]; cbn [fmap option_fmap option_map].
  - rewrite decide_False by done. rewrite !length_cons. lia.
  - rewrite decide_True by done. rewrite !length_cons. lia.
Qed.

Lemma fill0_coerced col (l : list (gmap string cell)) :
  (λ r, <[col := match to_numeric (at_col col r) with
                 | Some q => Num q
                 | None => Num 0%Qc
                 end]> r)
    <$> omap (λ r, (λ v, <[col := Num v]> r) <$> to_numeric (at_col col r)) l
  = omap (λ r, (λ v, <[col := Num v]> r) <$> to_numeric (at_col col r)) l.
Proof.
  induction l as [|r l IH]; [done|].
  change (omap ?g (r :: l)) with
    (match g r with Some y => y :: omap g l | None => omap g l end).
  cbn beta.
  destruct (to_numeric (at_col col r)) as [v|]; cbn [fmap option_fmap option_map];
    [|done].
  rewrite fmap_cons, IH. f_equal.
  by rewrite at_col_insert, to_numeric_num, insert_insert_eq.
Qed.

(** C10: when the quantity column [q] serves as the amount column, the
    table that goes on to the aggregation holds exactly the rows whose
    quantity converts to a number, each with that number in its quantity
    cell; a row whose quantity does not convert is not in it, with or
    without a zero, and the number of rows dropped that is printed is the
    number of rows whose quantity does not convert. *)
Theorem quantity_as_amount_drops_rows args date_col cat_col q df :
  let converts r := to_numeric (at_col q r) in
  rows (prepare q (Some q) df).1
    = omap (λ r, (λ v, <[q := Num v]> r) <$> converts r) (rows df)
  ∧ (prepare q (Some q) df).2
    = Z.of_nat (length (filter (λ r, converts r = None) (rows df)))
  ∧ head 1 (printed (analyze args date_col cat_col q (Some q) df))
    = [MsgMissingAmount
         (Z.of_nat (length (filter (λ r, converts r = None) (rows df))))].
Proof.
  intros converts.
  assert (rows (dropna q (coerce_numeric q df))
          = omap (λ r, (λ v, <[q := Num v]> r) <$> converts r) (rows df))
    as Hrows by apply coerced_rows.
  assert ((prepare q (Some q) df).2
          = Z.of_nat (length (filter (λ r, converts r = None) (rows df))))
    as Hcount.
  { unfold prepare. cbn [snd]. unfold len. rewrite Hrows.
    unfold coerce_numeric, assign; cbn [rows]. rewrite length_fmap.
    apply coerced_rows_length. }
  split_and!.
  - unfold prepare. cbn [fst].
    destruct (usable (Some q) (dropna q (coerce_numeric q df))); [|done].
    unfold coerce_numeric_fill0, assign. cbn [rows default].
    rewrite Hrows. apply fill0_coerced.
  - done.
  - unfold analyze.
    destruct (prepare q (Some q) df) as [df' dropped]. simpl in Hcount.
    subst dropped.
    match goal with
    | |- context [report ?a ?p] => generalize (report a p)
    end.
    intros [evs [e|[]]]; unfold printed, mbind, M_bind; simpl; done.
Qed.
End quantity_as_amount.

(** ** The categories of the chart *)











(** ** What the cleaning steps establish *)

Section pipeline_cleaned.
Context `{Library}.

(** After line 89 every row has a timestamp in the date column. *)
Lemma select_dates_timestamps args date_col df r :
  r ∈ rows (select_dates args date_col df) →
  ∃ t, at_col date_col r = Time t ∧ valid_ts t.
Proof.
  intros (Hr & t & Ht & _)%select_dates_rows. exists t. split; [done|].
  unfold dropna, coerce_date, assign_values in Hr; simpl in Hr.
  apply list_elem_of_filter in Hr as [_ Hr].
  apply elem_of_zip_with in Hr as (r0 & v & -> & _ & Hv).
  rewrite at_col_insert in Ht. subst v.
  apply list_elem_of_fmap in Hv as ([t'|] & Heq & Hin); [|done].
  injection Heq as ->. by eapply to_datetime_valid.
Qed.

Lemma drop_duplicates_rows df r :
  r ∈ rows (drop_duplicates df) ↔ r ∈ rows df.
Proof. apply keep_first_nil_elem_of. Qed.

Lemma assign_rows col f df r' :
  r' ∈ rows (assign col f df) ↔ ∃ r, r' = <[col := f r]> r ∧ r ∈ rows df.
Proof. unfold assign; simpl. apply list_elem_of_fmap. Qed.

(** Lines 113 to 120 keep the cells of every other column, leave a number
    in the amount column, and drop no row for its date or category. *)
Lemma prepare_rows amt_col qty_col df r' :
  r' ∈ rows (prepare amt_col qty_col df).1 →
  ∃ r, r ∈ rows df
       ∧ (∃ q, at_col amt_col r' = Num q)
       ∧ ∀ col, col ≠ amt_col → qty_col ≠ Some col →
                at_col col r' = at_col col r.
Proof.
  unfold prepare. cbn [fst]. intros Hr'.
  assert (∀ r1, r1 ∈ rows (dropna amt_col (coerce_numeric amt_col df)) →
            ∃ r, r ∈ rows df ∧ (∃ q, at_col amt_col r1 = Num q)
                 ∧ ∀ col, col ≠ amt_col → at_col col r1 = at_col col r)
    as Hdrop.
  { intros r1 [Hnan (r & -> & Hr)%assign_rows]%list_elem_of_filter.
    exists r. split; [done|]. rewrite at_col_insert in Hnan |- *. split.
    - destruct (to_numeric (at_col amt_col r)) as [q|]; [by exists q|done].
    - intros col Hcol. by rewrite at_col_insert_ne. }
  destruct (usable qty_col (dropna amt_col (coerce_numeric amt_col df)))
    eqn:Huse.
  - destruct qty_col as [qc|]; [|done]. cbn [default from_option id] in Hr'.
    apply assign_rows in Hr' as (r1 & -> & Hr1).
    destruct (Hdrop r1 Hr1) as (r & Hr & [q Hq] & Hother).
    exists r. split; [done|]. split.
    + destruct (decide (qc = amt_col)) as [->|Hne].
      * rewrite at_col_insert. cbn beta. rewrite Hq, to_numeric_num.
        by exists q.
      * rewrite at_col_insert_ne by done. by exists q.
    + intros col Hcol Hqty. rewrite at_col_insert_ne by congruence.
      by apply Hother.
  - destruct (Hdrop r' Hr') as (r & Hr & Hq & Hother).
    exists r. split_and!; [done..|]. intros col Hcol _. by apply Hother.
Qed.

(** The table that the aggregation receives is cleaned, when the category
    column was detected ... *)
Lemma prepared_table_cleaned args date_col cat_col amt_col qty_col df :
  date_col ≠ cat_col → date_col ≠ amt_col → cat_col ≠ amt_col →
  qty_col ≠ Some date_col → qty_col ≠ Some cat_col →
  cleaned date_col cat_col amt_col
    (prepare amt_col qty_col
       (fillna cat_col (Str "未知")
          (drop_duplicates (select_dates args date_col df)))).1.
Proof.
  intros Hdc Hda Hca Hqd Hqc r' (r1 & Hr1 & Hq & Hother)%prepare_rows.
  apply assign_rows in Hr1 as (r & -> & Hr).
  apply drop_duplicates_rows, select_dates_timestamps in Hr as (t & Ht & Hv).
  split_and!; [|
    |done].
  - exists t. split; [|done].
    rewrite Hother by done. by rewrite at_col_insert_ne.
  - rewrite Hother by done. rewrite at_col_insert.
    by destruct (at_col cat_col r).
Qed.

(** ... and when it was not, with the synthesized category column. *)
Lemma prepared_table_cleaned_no_category args date_col amt_col qty_col df :
  date_col ≠ "产品类别_detected" → amt_col ≠ "产品类别_detected" →
  date_col ≠ amt_col →
  qty_col ≠ Some date_col → qty_col ≠ Some "产品类别_detected" →
  cleaned date_col "产品类别_detected" amt_col
    (prepare amt_col qty_col
       (assign "产品类别_detected" (λ _, Str "未知")
          (drop_duplicates (select_dates args date_col df)))).1.
Proof.
  intros Hdc Hac Hda Hqd Hqc r' (r1 & Hr1 & Hq & Hother)%prepare_rows.
  apply assign_rows in Hr1 as (r & -> & Hr).
  apply drop_duplicates_rows, select_dates_timestamps in Hr as (t & Ht & Hv).
  split_and!; [|
    |done].
  - exists t. split; [|done].
    rewrite Hother by done. by rewrite at_col_insert_ne.
  - rewrite Hother by done. by rewrite at_col_insert.
Qed.
End pipeline_cleaned.

(** ** The properties at sample tables *)


(** With the default bounds, the sales of 2025-10-01 and of 2026-01-31 are
    kept and the sale of 2026-02-01 is not. *)
Lemma date_filter_spec_witness :
  on_start ∈ rows (select_dates (H:=typed_cells) default_args "日期"
                     boundary_dates)
  ∧ on_end ∈ rows (select_dates (H:=typed_cells) default_args "日期"
                     boundary_dates)
  ∧ after_end ∉ rows (select_dates (H:=typed_cells) default_args "日期"
                        boundary_dates).
Proof.
  destruct (date_filter_spec (H:=typed_cells) default_args "日期"
              boundary_dates) as (Hout & Hin & _).
  assert (∀ r, r ∈ rows boundary_dates →
            r ∈ rows (dropna "日期"
                        (coerce_date (H:=typed_cells) boundary_dates "日期")))
    as Hparsed.
  { intros r Hr. each_elem Hr; apply (bool_decide_unpack _);
      vm_compute; exact I. }
  split_and!.
  - apply Hin; [reflexivity| |by left].
    apply Hparsed. by left.
  - apply Hin; [reflexivity| |by right].
    apply Hparsed. right. by left.
  - apply (Hout after_end (mkTimestamp 2026 2 1 0)); [|reflexivity|by right].
    apply Hparsed. right. right. by left.
Defined.


(** In [quantity_only] the row whose quantity is the text abc is dropped and
    counted; it is not kept with a zero. *)
Lemma quantity_as_amount_drops_rows_witness :
  (prepare (H:=typed_cells) "数量" (Some "数量") quantity_only).2 = 1
  ∧ (λ r, at_col "数量" r)
      <$> rows (prepare (H:=typed_cells) "数量" (Some "数量")
                  quantity_only).1
    = [Num (Qc_of_Z 3)].
Proof.
  destruct (quantity_as_amount_drops_rows (H:=typed_cells) default_args
              "日期" "产品类别" "数量" quantity_only) as (Hrows & Hcount & _).
  split.
  - rewrite Hcount. vm_compute. reflexivity.
  - rewrite Hrows. vm_compute. reflexivity.
Defined.

(** The whole run on [quantity_only]: no amount column is found, the
    quantity column takes its place, one row is dropped. *)
Example main_quantity_only :
  printed (main (H:=typed_cells) default_args quantity_only)
  = [MsgReading; MsgRawRows 2;
     MsgDetected "日期" (Some "产品类别") None (Some "数量");
     MsgInRange 2; MsgDuplicates 0; MsgNoAmountColumn; MsgMissingAmount 1;
     MsgSavedTables; MsgSavedChart; MsgTooFewMonths; MsgDone].
Proof. vm_compute. reflexivity. Qed.

(** ** From the input table to the files *)

Section end_to_end.
Context `{Library}.

Lemma detect_column_lower df cands h :
  detect_column df cands = Some h → lower h ∈ lower <$> cands.
Proof.
  unfold detect_column.
  destruct (first_exact (columns df) cands) as [c|] eqn:Hex.
  - intros [= <-]. apply first_exact_Some in Hex as (pre & post & -> & _).
    apply list_elem_of_fmap. exists c. split; [done|].
    apply elem_of_app. right. left.
  - intros (pre & c & post & -> & Hc & _)%first_lower_Some.
    apply lowermap_Some in Hc as (_ & _ & _ & -> & _).
    apply list_elem_of_fmap. exists c. split; [done|].
    apply elem_of_app. right. left.
Qed.

Lemma separate_detected df l1 l2 h1 h2 :
  separate l1 l2 →
  detect_column df l1 = Some h1 → detect_column df l2 = Some h2 →
  h1 ≠ h2.
Proof.
  intros Hsep (x & Hx & Hin1)%detect_column_lower%list_elem_of_fmap
    (y & Hy & Hin2)%detect_column_lower%list_elem_of_fmap ->.
  unfold separate in Hsep. rewrite Forall_forall in Hsep.
  specialize (Hsep x Hin1). rewrite Forall_forall in Hsep.
  apply (Hsep y Hin2). congruence.
Qed.

Lemma separate_literal df l name h :
  separate [name] l → detect_column df l = Some h → h ≠ name.
Proof.
  intros Hsep (y & Hy & Hin)%detect_column_lower%list_elem_of_fmap ->.
  apply Forall_cons in Hsep as [Hsep _]. rewrite Forall_forall in Hsep.
  apply (Hsep y Hin). congruence.
Qed.

Lemma separate_app_r l l1 l2 :
  separate l (l1 ++ l2) ↔ separate l l1 ∧ separate l l2.
Proof.
  unfold separate. induction l as [|x l IH].
  - split; [by split|constructor].
  - rewrite !Forall_cons, Forall_app, IH. tauto.
Qed.

Lemma separate_cons_l x l l' :
  separate (x :: l) l' ↔ separate [x] l' ∧ separate l l'.
Proof.
  unfold separate. rewrite !Forall_cons, Forall_nil. tauto.
Qed.

Lemma artifacts_app {A B} (l1 l2 : list event) (o1 : exception + A)
    (o2 : exception + B) :
  artifacts (l1 ++ l2, o1) = artifacts (l1, o2) ++ artifacts (l2, o1).
Proof. unfold artifacts. cbn [fst]. apply omap_app. Qed.

(** What [analyze] writes: the aggregate, its pivot, the change matrix and
    the chart of the selected categories, then what the report writes. *)
Lemma analyze_artifacts args date_col cat_col amt_col qty_col df :
  let table := add_month date_col (prepare amt_col qty_col df).1 in
  let agg := aggregate cat_col amt_col
               (if usable qty_col table then qty_col else None) table in
  let pivot := pivot_of agg in
  let cats := top_cats agg (top_n args) in
  artifacts (analyze args date_col cat_col amt_col qty_col df) =
    [("aggregated_by_category_month.csv", AggCsv agg);
     ("sales_pivot.csv", PivotCsv pivot);
     ("sales_pct_change.csv", PctCsv (change_matrix pivot));
     ("sales_trends_top.png",
      Figure (length cats) (chart_lines pivot cats))]
    ++ artifacts (report args pivot).
Proof.
  intros table agg pivot cats. subst table agg pivot cats. unfold analyze.
  destruct (prepare amt_col qty_col df) as [df' dropped]. cbn [fst snd].
  destruct (report args _) as [evs [e|[]]];
    unfold artifacts, mbind, M_bind; simpl; [done|].
  repeat match goal with
         | |- context [list_omap ?A ?B ?f ?l] =>
             change (list_omap A B f l) with (omap f l)
         end.
  by rewrite omap_app, app_nil_r.
Qed.

Lemma process_artifacts args date_col cat_col amt_col qty_col df :
  artifacts (process args date_col (Some cat_col) (Some amt_col) qty_col df)
  = artifacts (analyze args date_col cat_col amt_col qty_col
                 (fillna cat_col (Str "未知") (drop_duplicates df))).
Proof.
  unfold process.
  match goal with
  | |- context [analyze ?a ?b ?c ?d ?e ?f] => generalize (analyze a b c d e f)
  end.
  intros [evs [e|[]]]; unfold artifacts, mbind, M_bind; simpl; done.
Qed.

(** X15: when the date, category and amount columns are detected, the table
    the aggregation receives is cleaned, its columns are not the month
    column, and the files hold its aggregate, pivot, change matrix and
    chart, followed by what the report step writes. *)
Lemma main_artifacts args df date_col cat_col amt_col :
  roles_separate →
  detect_column df COMMON_DATE_COLS = Some date_col →
  detect_column df COMMON_CATEGORY_COLS = Some cat_col →
  detect_column df COMMON_AMOUNT_COLS = Some amt_col →
  let qty_col := detect_column df COMMON_QTY_COLS in
  let cleaned_table :=
    (prepare amt_col qty_col
       (fillna cat_col (Str "未知")
          (drop_duplicates (select_dates args date_col df)))).1 in
  let table := add_month date_col cleaned_table in
  let agg := aggregate cat_col amt_col
               (if usable qty_col table then qty_col else None) table in
  let pivot := pivot_of agg in
  let cats := top_cats agg (top_n args) in
  cleaned date_col cat_col amt_col cleaned_table
  ∧ cat_col ≠ "month" ∧ amt_col ≠ "month" ∧ qty_col ≠ Some "month"
  ∧ artifacts (main args df) =
      [("aggregated_by_category_month.csv", AggCsv agg);
       ("sales_pivot.csv", PivotCsv pivot);
       ("sales_pct_change.csv", PctCsv (change_matrix pivot));
       ("sales_trends_top.png",
        Figure (length cats) (chart_lines pivot cats))]
      ++ artifacts (report args pivot).
Proof.
  intros (Hdc & Hda & Hdq & Hca & Hcq & Hown) Hd Hc Ha qty_col.
  apply separate_cons_l in Hown as [Hmonth _].
  apply separate_app_r in Hmonth as (_ & [Hmc [Hma Hmq]%separate_app_r]%separate_app_r).
  intros cleaned_table table agg pivot cats. split_and!.
  - apply prepared_table_cleaned.
    + by apply (separate_detected df _ _ _ _ Hdc).
    + by apply (separate_detected df _ _ _ _ Hda).
    + by apply (separate_detected df _ _ _ _ Hca).
    + intros Hq. by apply (separate_detected df _ _ _ _ Hdq Hd Hq).
    + intros Hq. by apply (separate_detected df _ _ _ _ Hcq Hc Hq).
  - by apply (separate_literal df _ _ _ Hmc).
  - by apply (separate_literal df _ _ _ Hma).
  - intros Hq. by apply (separate_literal df _ _ _ Hmq Hq).
  - rewrite main_unfold, Hd, Hc, Ha. cbn zeta.
    fold qty_col.
    generalize (process_artifacts args date_col cat_col amt_col qty_col
                  (select_dates args date_col df)).
    destruct (process _ _ _ _ _ _) as [evs o]. intros Hproc.
    cbn [fst snd]. rewrite (artifacts_app _ evs o o), Hproc.
    apply analyze_artifacts.
Qed.
End end_to_end.

(** On the bytes of a text [lower_ascii] is [str.lower] for the letters A to
    Z, and with it the candidate lists are separate. *)
Lemma roles_separate_ascii : roles_separate (H:=typed_cells).
Proof. apply (bool_decide_unpack _). vm_compute. exact I. Qed.

(** * Further properties of the script *)

(** ** detect_column and the four roles *)

Section detection.
Context `{Library}.

(** X1: whatever [detect_column] returns is a header of the table, with the
    lower-case form of some candidate; and it returns [None] exactly when no
    header has the lower-case form of a candidate. *)
Theorem detect_column_sound df cands :
  (∀ h, detect_column df cands = Some h →
        h ∈ columns df ∧ lower h ∈ lower <$> cands)
  ∧ (detect_column df cands = None ↔
     ∀ c h, c ∈ cands → h ∈ columns df → lower h ≠ lower c).
Proof.
  split.
  - intros h Hh. split; [|by apply (detect_column_lower df)].
    unfold detect_column in Hh.
    destruct (first_exact (columns df) cands) as [c|] eqn:Hex.
    + injection Hh as <-.
      by apply first_exact_Some in Hex as (pre & post & _ & ? & _).
    + apply first_lower_Some in Hh as (pre & c & post & _ & Hc & _).
      apply lowermap_Some in Hc as (hs1 & hs2 & -> & _).
      apply elem_of_app. right. left.
  - unfold detect_column. split.
    + destruct (first_exact (columns df) cands) as [c|] eqn:Hex; [done|].
      intros Hlow c h Hc Hh. rewrite first_lower_None in Hlow.
      by apply (proj1 (lowermap_None (columns df) (lower c)) (Hlow c Hc)).
    + intros Hnone.
      assert (first_exact (columns df) cands = None) as ->.
      { apply first_exact_None. intros x Hx Hin. by apply (Hnone x x). }
      apply first_lower_None. intros x Hx. apply lowermap_None.
      intros y Hy. by apply (Hnone x y).
Qed.

(** X2: when no header can match the candidates of two roles, the columns
    detected for the date, the category and the amount are three different
    columns, the quantity column is neither the date nor the category
    column, and none of them is the month column or the category column
    that the script adds itself. *)
Theorem detected_roles_distinct df date_col cat_col amt_col :
  roles_separate →
  detect_column df COMMON_DATE_COLS = Some date_col →
  detect_column df COMMON_CATEGORY_COLS = Some cat_col →
  detect_column df COMMON_AMOUNT_COLS = Some amt_col →
  date_col ≠ cat_col ∧ date_col ≠ amt_col ∧ cat_col ≠ amt_col
  ∧ detect_column df COMMON_QTY_COLS ≠ Some date_col
  ∧ detect_column df COMMON_QTY_COLS ≠ Some cat_col
  ∧ Forall (λ col, col ≠ "month" ∧ col ≠ "产品类别_detected")
      [date_col; cat_col; amt_col]
  ∧ detect_column df COMMON_QTY_COLS ≠ Some "month"
  ∧ detect_column df COMMON_QTY_COLS ≠ Some "产品类别_detected".
Proof.
  intros (Hdc & Hda & Hdq & Hca & Hcq & Hown) Hd Hc Ha.
  apply separate_cons_l in Hown as [Hmonth [Hsyn _]%separate_cons_l].
  apply separate_app_r in Hmonth
    as (Hmd & [Hmc [Hma Hmq]%separate_app_r]%separate_app_r).
  apply separate_app_r in Hsyn
    as (Hsd & [Hsc [Hsa Hsq]%separate_app_r]%separate_app_r).
  split_and!.
  - by apply (separate_detected df _ _ _ _ Hdc).
  - by apply (separate_detected df _ _ _ _ Hda).
  - by apply (separate_detected df _ _ _ _ Hca).
  - intros Hq. by apply (separate_detected df _ _ _ _ Hdq Hd Hq).
  - intros Hq. by apply (separate_detected df _ _ _ _ Hcq Hc Hq).
  - repeat apply Forall_cons_2; [| | |apply Forall_nil_2]; split.
    + by apply (separate_literal df _ _ _ Hmd).
    + by apply (separate_literal df _ _ _ Hsd).
    + by apply (separate_literal df _ _ _ Hmc).
    + by apply (separate_literal df _ _ _ Hsc).
    + by apply (separate_literal df _ _ _ Hma).
    + by apply (separate_literal df _ _ _ Hsa).
  - intros Hq. by apply (separate_literal df _ _ _ Hmq Hq).
  - intros Hq. by apply (separate_literal df _ _ _ Hsq Hq).
Qed.

(** ** The early exits of main *)

(** X3: when no header has the lower-case form of a date candidate, [main]
    prints that no date column was found and the list of the headers, writes
    no file and raises nothing. *)
Theorem main_without_date_column args df :
  (∀ c h, c ∈ COMMON_DATE_COLS → h ∈ columns df → lower h ≠ lower c) →
  main args df =
    ([Printed MsgReading; Printed (MsgRawRows (len df));
      Printed MsgNoDateColumn; Printed (MsgColumns (columns df))], inr tt).
Proof.
  intros Hnone. rewrite main_unfold.
  assert (detect_column df COMMON_DATE_COLS = None) as ->; [|done].
  unfold detect_column.
  assert (first_exact (columns df) COMMON_DATE_COLS = None) as ->.
  { apply first_exact_None. intros x Hx Hin. by apply (Hnone x x). }
  apply first_lower_None. intros x Hx. apply lowermap_None.
  intros y Hy. by apply (Hnone x y).
Qed.

(** X4: when a date column is found and neither an amount nor a quantity
    column, [main] filters and deduplicates, prints that no amount source
    exists, writes no file and raises nothing. *)
Theorem main_without_amount_source args df date_col :
  detect_column df COMMON_DATE_COLS = Some date_col →
  detect_column df COMMON_AMOUNT_COLS = None →
  detect_column df COMMON_QTY_COLS = None →
  let kept := select_dates args date_col df in
  main args df =
    ([Printed MsgReading; Printed (MsgRawRows (len df));
      Printed (MsgDetected date_col (detect_column df COMMON_CATEGORY_COLS)
                 None None);
      Printed (MsgInRange (len kept));
      Printed (MsgDuplicates
                 (Z.of_nat (len kept)
                  - Z.of_nat (len (drop_duplicates kept))));
      Printed MsgNoAmountColumn; Printed MsgNoAmountSource], inr tt).
Proof.
  intros Hd Ha Hq kept. rewrite main_unfold, Hd, Ha, Hq. cbn zeta.
  fold kept. unfold process.
  by destruct (detect_column df COMMON_CATEGORY_COLS).
Qed.
End detection.

Lemma detected_roles_distinct_witness :
  "日期" ≠ "产品类别" ∧ "日期" ≠ "金额" ∧ "产品类别" ≠ "金额"
  ∧ detect_column (H:=typed_cells) two_months COMMON_QTY_COLS ≠ Some "日期"
  ∧ detect_column (H:=typed_cells) two_months COMMON_QTY_COLS
    ≠ Some "产品类别"
  ∧ Forall (λ col, col ≠ "month" ∧ col ≠ "产品类别_detected")
      ["日期"; "产品类别"; "金额"]
  ∧ detect_column (H:=typed_cells) two_months COMMON_QTY_COLS ≠ Some "month"
  ∧ detect_column (H:=typed_cells) two_months COMMON_QTY_COLS
    ≠ Some "产品类别_detected".
Proof.
  apply (detected_roles_distinct (H:=typed_cells) two_months);
    [apply roles_separate_ascii|vm_compute; reflexivity..].
Defined.

Lemma main_without_date_column_witness :
  main (H:=typed_cells) default_args no_date_header =
    ([Printed MsgReading; Printed (MsgRawRows 1);
      Printed MsgNoDateColumn; Printed (MsgColumns ["产品类别"; "金额"])],
     inr tt).
Proof.
  apply (main_without_date_column (H:=typed_cells) default_args
           no_date_header).
  intros c h Hc Hh. by each_elem Hc; each_elem Hh.
Defined.

Lemma main_without_amount_source_witness :
  files (main (H:=typed_cells) default_args no_amount_source) = []
  ∧ raised (main (H:=typed_cells) default_args no_amount_source) = None.
Proof.
  rewrite (main_without_amount_source (H:=typed_cells) default_args
             no_amount_source "日期");
    [done|vm_compute; reflexivity..].
Defined.

(** ** coerce_date, the date filter and the removal of duplicates *)

Lemma keep_first_sublist `{EqDecision A} (seen l : list A) :
  keep_first seen l `sublist_of` l.
Proof.
  revert seen. induction l as [|x l IH]; intros seen; simpl; [done|].
  case_decide; [by apply sublist_cons|by apply sublist_skip].
Qed.

Section table_steps.
Context `{Library}.


(** X6: the date filter keeps at most as many rows as were read, and none
    at all when [end] lies before [start]. *)
Theorem select_dates_counts args date_col df :
  (len (select_dates args date_col df) ≤ len df)%nat
  ∧ (ts_lt (end_ args) (start args) = true →
     rows (select_dates args date_col df) = []).
Proof.
  split.
  - unfold len, select_dates, loc_mask, dropna, coerce_date, assign_values.
    simpl. etrans; [apply length_filter|]. etrans; [apply length_filter|].
    rewrite length_zip_with. lia.
  - intros Hlt%ts_lt_not_le.
    destruct (rows (select_dates args date_col df)) as [|r l] eqn:Hrows;
      [done|].
    assert (r ∈ rows (select_dates args date_col df)) as Hr
      by (rewrite Hrows; left).
    apply select_dates_rows in Hr as (_ & t & _ & Hs & He).
    unfold ts_le in *.
    by rewrite (leb_of_trans ts_compare _ _ _ Hs He) in Hlt.
Qed.

(** X7: [drop_duplicates] keeps the headers, leaves no row twice, keeps
    every row that occurs, in the order of the table, and a second pass
    changes nothing; a table without repeated rows is left as it is. *)
Theorem drop_duplicates_spec df :
  columns (drop_duplicates df) = columns df
  ∧ NoDup (rows (drop_duplicates df))
  ∧ (∀ r, r ∈ rows (drop_duplicates df) ↔ r ∈ rows df)
  ∧ rows (drop_duplicates df) `sublist_of` rows df
  ∧ drop_duplicates (drop_duplicates df) = drop_duplicates df
  ∧ (NoDup (rows df) → drop_duplicates df = df).
Proof.
  unfold drop_duplicates; simpl. split_and!.
  - done.
  - apply keep_first_NoDup.
  - intros r. apply keep_first_nil_elem_of.
  - apply keep_first_sublist.
  - f_equal. apply keep_first_id; [apply keep_first_NoDup|].
    intros x _ Hx. by apply elem_of_nil in Hx.
  - intros Hnd. destruct df as [cols l]; simpl in *. f_equal.
    apply keep_first_id; [done|]. intros x _ Hx. by apply elem_of_nil in Hx.
Qed.

(** X8: when dates are parsed value by value, a row whose date does not
    parse, or parses to a date before [start] or after [end], can be taken
    out of the input without any change to the files written or to the
    exception raised. *)
Theorem main_ignores_out_of_range_row (f : cell → option Timestamp)
    args cols l1 r l2 :
  (∀ l, to_datetime l = f <$> l) →
  (∀ date_col t,
     detect_column {| columns := cols; rows := l1 ++ l2 |} COMMON_DATE_COLS
       = Some date_col →
     f (at_col date_col r) = Some t →
     ts_lt t (start args) = true ∨ ts_lt (end_ args) t = true) →
  artifacts (main args {| columns := cols; rows := l1 ++ r :: l2 |})
  = artifacts (main args {| columns := cols; rows := l1 ++ l2 |})
  ∧ raised (main args {| columns := cols; rows := l1 ++ r :: l2 |})
    = raised (main args {| columns := cols; rows := l1 ++ l2 |}).
Proof.
  intros Hf Hout. rewrite !main_unfold.
  rewrite !(detect_column_columns {| columns := cols; rows := l1 ++ l2 |}
              {| columns := cols; rows := l1 ++ r :: l2 |}) by done.
  destruct (detect_column _ COMMON_DATE_COLS) as [dc|] eqn:Hd; [|done].
  by rewrite (out_of_range_row_ignored f args dc cols l1 r l2 Hf
                (λ t, Hout dc t eq_refl)).
Qed.
End table_steps.

Lemma main_ignores_out_of_range_row_witness :
  artifacts (main (H:=typed_cells) default_args boundary_dates)
  = artifacts (main (H:=typed_cells) default_args
                 (sales_table [on_start; on_end]))
  ∧ raised (main (H:=typed_cells) default_args boundary_dates)
    = raised (main (H:=typed_cells) default_args
                (sales_table [on_start; on_end])).
Proof.
  apply (main_ignores_out_of_range_row (H:=typed_cells) typed_date
           default_args _ [on_start; on_end] after_end []).
  - done.
  - intros dc t Hdc. vm_compute in Hdc. injection Hdc as <-.
    vm_compute. intros [= <-]. by right.
Defined.

(** ** Month labels *)

(** X9: two timestamps that pandas can hold get the same month label
    exactly when they lie in the same month of the same year, and the
    labels, compared as texts, are ordered as the months are. *)
Theorem month_label_order a b :
  valid_ts a → valid_ts b →
  (month_label a = month_label b ↔ year a = year b ∧ month a = month b)
  ∧ (String.compare (month_label a) (month_label b) = Lt ↔
     month_before a b).
Proof.
  intros Ha Hb. split.
  - rewrite <- (cmp_eq String.compare), month_label_compare by done.
    destruct (Z.compare_spec (year a) (year b));
      destruct (Z.compare_spec (month a) (month b));
      split; (done || lia).
  - rewrite month_label_compare by done. unfold month_before.
    destruct (Z.compare_spec (year a) (year b));
      destruct (Z.compare_spec (month a) (month b)); split; (done || lia).
Qed.

Lemma month_label_order_witness :
  (month_label (mkTimestamp 2025 10 3 0) = month_label (mkTimestamp 2025 11 5 0)
   ↔ 2025 = 2025 ∧ 10 = 11)
  ∧ (String.compare (month_label (mkTimestamp 2025 10 3 0))
       (month_label (mkTimestamp 2025 11 5 0)) = Lt
     ↔ month_before (mkTimestamp 2025 10 3 0) (mkTimestamp 2025 11 5 0)).
Proof.
  apply (month_label_order (mkTimestamp 2025 10 3 0)
           (mkTimestamp 2025 11 5 0));
    unfold valid_ts; simpl; lia.
Defined.

(** ** The quantity column beside an amount column *)

(** X10: when the amount column and the quantity column are two columns,
    the table that goes on to the aggregation holds the rows whose amount
    converts to a number, and only those; in each of them the quantity cell
    is the number the quantity converts to, or zero when it does not
    convert. No row is dropped for its quantity. *)
Theorem quantity_filled_with_zero `{Library} amt_col q df :
  amt_col ≠ q → q ≠ EmptyString → q ∈ columns df →
  rows (prepare amt_col (Some q) df).1 =
    (λ r, <[q := Num (default 0%Qc (to_numeric (at_col q r)))]> r)
      <$> omap (λ r, (λ v, <[amt_col := Num v]> r)
                       <$> to_numeric (at_col amt_col r)) (rows df).
Proof.
  intros Hne Hq Hin. unfold prepare. cbn [fst].
  assert (usable (Some q) (dropna amt_col (coerce_numeric amt_col df)) = true)
    as ->.
  { apply bool_decide_eq_true_2. split; [done|]. simpl.
    case_decide; [done|]. apply elem_of_app. by left. }
  assert (rows (dropna amt_col (coerce_numeric amt_col df))
          = omap (λ r, (λ v, <[amt_col := Num v]> r)
                         <$> to_numeric (at_col amt_col r)) (rows df))
    as Hrows by apply coerced_rows.
  unfold coerce_numeric_fill0. cbn [default from_option id].
  unfold assign at 1. cbn [rows]. rewrite Hrows.
  apply list_fmap_ext. intros _ r _. cbn beta.
  by destruct (to_numeric (at_col q r)).
Qed.

Lemma quantity_filled_with_zero_witness :
  (λ r, (at_col "金额" r, at_col "数量" r))
    <$> rows (prepare (H:=typed_cells) "金额" (Some "数量")
                amount_and_quantity).1
  = [(Num (Qc_of_Z 5), Num 0%Qc)].
Proof.
  rewrite (quantity_filled_with_zero (H:=typed_cells) "金额" "数量"
             amount_and_quantity).
  - vm_compute. reflexivity.
  - discriminate.
  - discriminate.
  - right. right. right. left.
Defined.

(** ** Nothing is lost in the aggregation *)










(** ** The lines of the chart *)

(** X12: every line of the chart belongs to one of the categories handed to
    it, which is a column of the pivot; the line has one point for each row
    of the pivot, in the order of the rows, and the point of a month is the
    sales_amount of the aggregate row of that month and category, or zero
    when there is none. *)
Theorem chart_series agg cats c s :
  (c, s) ∈ chart_lines (pivot_of agg) cats →
  c ∈ cats ∧ c ∈ labels (pivot_of agg)
  ∧ s.*1 = index (pivot_of agg)
  ∧ ∀ i m v, s !! i = Some (m, v) →
             v = default 0%Qc (agg_lookup agg m c).
Proof.
  rewrite pivot_of_unfold. unfold chart_lines.
  intros (c' & Hc' & Hget)%list_elem_of_omap.
  unfold getitem in Hget. cbn [labels index data] in Hget |- *.
  destruct (list_find (λ x, x = c') (sorted_unique (agg_cat <$> agg)))
    as [[j x]|] eqn:Hfind; [|done].
  apply list_find_Some in Hfind as (Hj & -> & _).
  injection Hget as <- <-.
  split_and!.
  - done.
  - by eapply list_elem_of_lookup_2.
  - apply fst_zip. by rewrite !length_fmap.
  - intros i m v (Hm & Hv)%lookup_zip_Some.
    rewrite list_lookup_fmap, list_lookup_fmap, Hm in Hv. simpl in Hv.
    rewrite list_lookup_fmap, Hj in Hv. simpl in Hv. by injection Hv as <-.
Qed.

Lemma chart_series_witness :
  (Str "A", [(Str "2025-10", Qc_of_Z 10)])
    ∈ chart_lines (pivot_of tied_agg) (top_cats tied_agg 1)
  ∧ Qc_of_Z 10 = default 0%Qc (agg_lookup tied_agg (Str "2025-10") (Str "A")).
Proof.
  assert ((Str "A", [(Str "2025-10", Qc_of_Z 10)])
            ∈ chart_lines (pivot_of tied_agg) (top_cats tied_agg 1)) as Hin
    by (apply (bool_decide_unpack _); vm_compute; exact I).
  split; [done|].
  destruct (chart_series tied_agg _ _ _ Hin) as (_ & _ & _ & Hpoint).
  by apply (Hpoint 0%nat (Str "2025-10")).
Defined.

(** ** The files of a run *)




Section run_files.
Context `{Library}.


End run_files.

(** ** The report of a table with two months *)

Lemma last_elem_of {A} (l : list A) d : l ≠ [] → List.last l d ∈ l.
Proof.
  induction l as [|x [|y l] IH]; intros Hne; [done|left|].
  right. by apply IH.
Qed.

Lemma two_elements {A} (l : list A) x y :
  x ∈ l → y ∈ l → x ≠ y → (2 ≤ length l)%nat.
Proof.
  destruct l as [|a [|b l]]; simpl; intros Hx Hy Hne; [|exfalso|lia].
  - by apply elem_of_nil in Hx.
  - apply list_elem_of_singleton in Hx, Hy. congruence.
Qed.

Section pivot_axes.
Context (date_col cat_col amt_col : string) (qty_col : option string)
  (df : DataFrame).
Hypothesis cat_not_month : cat_col ≠ "month".
Hypothesis amt_not_month : amt_col ≠ "month".
Hypothesis df_cleaned : cleaned date_col cat_col amt_col df.

Lemma aggregate_has_key m c :
  (m, c) ∈ (λ a, (agg_month a, agg_cat a))
             <$> aggregate cat_col amt_col qty_col (add_month date_col df) ↔
  ∃ r, r ∈ rows df ∧ month_cell (at_col date_col r) = m
       ∧ at_col cat_col r = c.
Proof.
  rewrite aggregate_keys.
  by apply (group_keys_add_month date_col cat_col amt_col).
Qed.

Lemma pivot_index_elem_of m :
  m ∈ index (pivot_of (aggregate cat_col amt_col qty_col
                         (add_month date_col df))) ↔
  ∃ r, r ∈ rows df ∧ month_cell (at_col date_col r) = m.
Proof.
  rewrite pivot_of_unfold. cbn [index].
  rewrite sorted_unique_elem_of, list_elem_of_fmap. split.
  - intros (a & -> & Ha).
    destruct (proj1 (aggregate_has_key (agg_month a) (agg_cat a)))
      as (r & Hr & Hm & _); [|by exists r].
    apply list_elem_of_fmap. by exists a.
  - intros (r & Hr & <-).
    assert ((month_cell (at_col date_col r), at_col cat_col r)
              ∈ (λ a, (agg_month a, agg_cat a))
                  <$> aggregate cat_col amt_col qty_col
                        (add_month date_col df)) as Hk.
    { apply aggregate_has_key. by exists r. }
    apply list_elem_of_fmap in Hk as (a & Ha & Hin).
    exists a. by simplify_eq.
Qed.

Lemma pivot_labels_elem_of c :
  c ∈ labels (pivot_of (aggregate cat_col amt_col qty_col
                          (add_month date_col df))) ↔
  ∃ r, r ∈ rows df ∧ at_col cat_col r = c.
Proof.
  rewrite pivot_of_unfold. cbn [labels].
  rewrite sorted_unique_elem_of, list_elem_of_fmap. split.
  - intros (a & -> & Ha).
    destruct (proj1 (aggregate_has_key (agg_month a) (agg_cat a)))
      as (r & Hr & _ & Hc); [|by exists r].
    apply list_elem_of_fmap. by exists a.
  - intros (r & Hr & <-).
    assert ((month_cell (at_col date_col r), at_col cat_col r)
              ∈ (λ a, (agg_month a, agg_cat a))
                  <$> aggregate cat_col amt_col qty_col
                        (add_month date_col df)) as Hk.
    { apply aggregate_has_key. by exists r. }
    apply list_elem_of_fmap in Hk as (a & Ha & Hin).
    exists a. by simplify_eq.
Qed.
End pivot_axes.

(** X14: when the rows of the cleaned table fall in two different months at
    least and no category of the table is the label of a month of the
    table, the report step raises [KeyError] on the label of a month of the
    table and writes nothing: [pivot[last]] looks a month up among the
    categories. *)
Theorem report_raises_on_two_months args date_col cat_col amt_col qty_col
    df r1 r2 :
  cat_col ≠ "month" → amt_col ≠ "month" →
  cleaned date_col cat_col amt_col df →
  r1 ∈ rows df → r2 ∈ rows df →
  month_cell (at_col date_col r1) ≠ month_cell (at_col date_col r2) →
  (∀ r r', r ∈ rows df → r' ∈ rows df →
           at_col cat_col r ≠ month_cell (at_col date_col r')) →
  ∃ r t, r ∈ rows df ∧ at_col date_col r = Time t
         ∧ report args
             (pivot_of (aggregate cat_col amt_col qty_col
                          (add_month date_col df)))
           = ([], inl (KeyError (Str (month_label t)))).
Proof.
  intros Hcat Hamt Hclean Hr1 Hr2 Hmonths Hcats.
  set (pivot := pivot_of _).
  assert (2 ≤ length (index pivot))%nat as Hlen.
  { apply (two_elements _ (month_cell (at_col date_col r1))
             (month_cell (at_col date_col r2))); [| |done];
      apply (pivot_index_elem_of date_col cat_col amt_col); eauto. }
  assert (List.last (index pivot) NaN ∈ index pivot) as Hlast.
  { apply last_elem_of. intros Hnil. rewrite Hnil in Hlen. simpl in Hlen.
    lia. }
  apply (pivot_index_elem_of date_col cat_col amt_col) in Hlast
    as (r & Hr & Hm); [|done..].
  destruct (Hclean r Hr) as ((t & Ht & _) & _).
  exists r, t. split_and!; [done..|].
  rewrite Ht in Hm.
  change (month_cell (Time t)) with (Str (month_label t)) in Hm. rewrite Hm.
  apply report_raises_KeyError; [done|].
  rewrite <- Hm.
  intros (r' & Hr' & Hc)%(pivot_labels_elem_of date_col cat_col amt_col);
    [|done..].
  apply (Hcats r' r Hr' Hr). by rewrite Hc, Ht.
Qed.

Lemma report_raises_on_two_months_witness :
  ∃ r t, r ∈ rows two_months ∧ at_col "日期" r = Time t
         ∧ report default_args (pivot_of two_months_agg)
           = ([], inl (KeyError (Str (month_label t)))).
Proof.
  apply (report_raises_on_two_months default_args "日期" "产品类别" "金额"
           None two_months
           (sale (mkTimestamp 2025 10 3 0) "A" (Num (Qc_of_Z 100)))
           (sale (mkTimestamp 2025 11 5 0) "A" (Num (Qc_of_Z 50)))).
  - discriminate.
  - discriminate.
  - apply two_months_cleaned.
  - left.
  - right. right. left.
  - vm_compute. discriminate.
  - intros r r' Hr Hr'. each_elem Hr; each_elem Hr'; vm_compute; discriminate.
Defined.

Lemma main_artifacts_witness :
  cleaned "日期" "产品类别" "金额"
    (prepare (H:=typed_cells) "金额"
       (detect_column (H:=typed_cells) two_months COMMON_QTY_COLS)
       (fillna "产品类别" (Str "未知")
          (drop_duplicates
             (select_dates (H:=typed_cells) default_args "日期"
                two_months)))).1
  ∧ "产品类别" ≠ "month" ∧ "金额" ≠ "month".
Proof.
  destruct (main_artifacts (H:=typed_cells) default_args two_months
              "日期" "产品类别" "金额") as (Hclean & Hc & Ha & _);
    [apply roles_separate_ascii|vm_compute; reflexivity..|].
  done.
Defined.

(** ** The shape of the change matrix *)




